(** * USAA transaction summarizer: a shallow embedding of [main.py]

    The development follows the pipeline of the program:
    [clean_merchant_name] and [clean_data] (normalisation),
    [calculate_monthly_totals] and [create_spending_report] (aggregation),
    [print_monthly_summary], [print_spending_details] and [export_to_csv]
    (rendering).

    Modelling conventions.
    - A pandas DataFrame is a list of row records, in row order.
    - A Python [str] is a Rocq [string]; a character stands for the code point
      of the same number (0..255).
    - An amount is a rational number ([Q]).  The program computes with binary64
      floats; the embedding is the exact-arithmetic reading of the same
      expressions, with [round(x, n)], [DataFrame.round(n)] and the [.nf]
      format specifier all read as rounding half to even at [n] decimals.
      The program's routines round the binary64 value, so at an exact decimal
      tie they can give either neighbour; the results on rounded figures
      ([rounded_to_cents], [rounded_to_tenths]) hold for both.
    - A description is text and a file can be written: an empty description
      cell (which [read_csv] reads as NaN, and on which [clean_merchant_name]
      raises [AttributeError]) and a failing [to_csv] are outside the frames
      and runs modelled here.
    - A Python [dict] is an association list in insertion order.
    - A raised exception is the [Raise] case of [result]. *)

From Stdlib Require Import ZArith QArith Qabs Lia List Bool Ascii String.
From Stdlib Require Import Permutation Sorted.
Import ListNotations.

Local Open Scope string_scope.

(** ** Python strings *)

Module PyStr.

(** [str.isspace] on a single character, for the code points below 256:
    TAB..CR, FS..US, SPACE, NEL and NBSP. *)
Definition is_space (c : ascii) : bool :=
  let n := nat_of_ascii c in
  ((9 <=? n) && (n <=? 13) || (28 <=? n) && (n <=? 32)
   || (n =? 133) || (n =? 160))%nat.

(** [s.lstrip()] *)
Fixpoint lstrip (s : string) : string :=
  match s with
  | EmptyString => EmptyString
  | String c s' => if is_space c then lstrip s' else s
  end.

(** [s.rstrip()] *)
Fixpoint rstrip (s : string) : string :=
  match s with
  | EmptyString => EmptyString
  | String c s' =>
      match rstrip s' with
      | EmptyString => if is_space c then EmptyString else String c EmptyString
      | r => String c r
      end
  end.

(** [s.strip()] *)
Definition strip (s : string) : string := rstrip (lstrip s).

(** [p in s]: [p] occurs in [s] as a contiguous substring. *)
Fixpoint contains (p s : string) : bool :=
  String.prefix p s ||
  match s with
  | EmptyString => false
  | String _ s' => contains p s'
  end.

(** [s.split(sep)[0]] for a non-empty separator: the part of [s] before the
    leftmost occurrence of [sep], all of [s] when there is none. *)
Fixpoint split_head (sep s : string) : string :=
  if String.prefix sep s then EmptyString
  else match s with
       | EmptyString => EmptyString
       | String c s' => String c (split_head sep s')
       end.

(** [s[:n]] *)
Definition slice_to (n : nat) (s : string) : string := String.substring 0 n s.

(** Every character is white space. *)
Fixpoint all_space (s : string) : bool :=
  match s with
  | EmptyString => true
  | String c s' => is_space c && all_space s'
  end.

(** The string is empty or starts with a character that is not a space. *)
Definition no_lead (s : string) : bool :=
  match s with
  | EmptyString => true
  | String c _ => negb (is_space c)
  end.

End PyStr.

(** ** [clean_merchant_name] *)

Definition clean_merchant_name (desc : string) : string :=
  let desc := PyStr.strip desc in
  if PyStr.contains "UBER EATS" desc then "Uber Eats"
  else if PyStr.contains "PAYPAL" desc then
    if PyStr.contains "INST XFER" desc then "PayPal Transfer"
    else "PayPal"
  else if PyStr.contains "CAREERBUILDER" desc then "CareerBuilder Paycheck"
  else if PyStr.contains "INTEREST PAID" desc then "Interest Income"
  else if PyStr.contains "Georgia Departme" desc then "Georgia State Tax Refund"
  else if PyStr.contains "IRS  TREAS" desc && PyStr.contains "TAX REF" desc
       then "Federal Tax Refund"
  else
    let cleaned := PyStr.strip (PyStr.split_head "***" desc) in
    if (50 <? String.length cleaned)%nat
    then PyStr.strip (PyStr.slice_to 50 cleaned)
    else cleaned.

(** ** Numbers *)

Local Open Scope Q_scope.

(** The integer nearest to [x], ties going to the even neighbour. *)
Definition round_half_even (x : Q) : Z :=
  let n := Qnum x in
  let d := Zpos (Qden x) in
  let f := (n / d)%Z in
  match (2 * (n mod d) ?= d)%Z with
  | Lt => f
  | Gt => (f + 1)%Z
  | Eq => if Z.even f then f else (f + 1)%Z
  end.

(** [round(x, nd)], [Series.round(nd)] and the format [.{nd}f]. *)
Definition round_nd (nd : nat) (x : Q) : Q :=
  Qmake (round_half_even (x * inject_Z (10 ^ Z.of_nat nd)))
        (Z.to_pos (10 ^ Z.of_nat nd)).

(** Rounding to cents and to tenths. *)
Definition round2 (x : Q) : Q := round_nd 2 x.
Definition round1 (x : Q) : Q := round_nd 1 x.

(** [Series.sum()]; the sum of an empty series is 0. *)
Definition qsum (l : list Q) : Q := fold_right Qplus 0 l.

Definition Qlt_bool (x y : Q) : bool := negb (Qle_bool y x).

(** Division of two numpy [float64] values: it never raises; a zero divisor
    gives [nan] or an infinity, which is [None] here. *)
Definition np_div (x y : Q) : option Q :=
  if Qeq_bool y 0 then None else Some (x / y).

(** ** Exceptions *)

Inductive exn : Type :=
| ZeroDivisionError
| KeyError (key : string)
| ValueError.

Inductive result (A : Type) : Type :=
| Return (a : A)
| Raise (e : exn).
Arguments Return {A} a.
Arguments Raise {A} e.

Definition bind {A B} (m : result A) (k : A -> result B) : result B :=
  match m with
  | Return a => k a
  | Raise e => Raise e
  end.

Notation "x <- m ;; k" := (bind m (fun x => k))
  (at level 61, m at next level, right associativity).

Fixpoint mapM {A B} (f : A -> result B) (l : list A) : result (list B) :=
  match l with
  | [] => Return []
  | a :: l' => b <- f a ;; bs <- mapM f l' ;; Return (b :: bs)
  end.

(** Division of Python numbers, the divisor a Python [int]. *)
Definition py_div (x : Q) (n : nat) : result Q :=
  match n with
  | O => Raise ZeroDivisionError
  | _ => Return (x / inject_Z (Z.of_nat n))
  end.

(** ** Calendar months *)

Inductive month : Type :=
| January | February | March | April | May | June
| July | August | September | October | November | December.

Definition all_months : list month :=
  [January; February; March; April; May; June;
   July; August; September; October; November; December].

Definition month_number (m : month) : nat :=
  match m with
  | January => 1 | February => 2 | March => 3 | April => 4
  | May => 5 | June => 6 | July => 7 | August => 8
  | September => 9 | October => 10 | November => 11 | December => 12
  end.

(** [%B] *)
Definition month_name (m : month) : string :=
  match m with
  | January => "January" | February => "February" | March => "March"
  | April => "April" | May => "May" | June => "June" | July => "July"
  | August => "August" | September => "September" | October => "October"
  | November => "November" | December => "December"
  end.

Record date : Type := { year : nat; month_of : month; day : nat }.

(** A pandas [Timestamp] lies between the years 1677 and 2262. *)
Definition valid_date (d : date) : Prop := (1677 <= year d <= 2262)%nat.

Definition digit (n : nat) : ascii := ascii_of_nat (48 + n mod 10).

Definition digit_value (c : ascii) : option nat :=
  let n := nat_of_ascii c in
  if ((48 <=? n) && (n <=? 57))%nat then Some (n - 48)%nat else None.

(** [%Y]: four digits. *)
Definition fmt_Y (y : nat) : string :=
  String (digit (y / 1000)) (String (digit (y / 100))
    (String (digit (y / 10)) (String (digit y) EmptyString))).

(** [%m]: two digits. *)
Definition fmt_m (m : month) : string :=
  String (digit (month_number m / 10)) (String (digit (month_number m)) EmptyString).

(** [d.strftime('%B %Y')] *)
Definition strftime_B_Y (y : nat) (m : month) : string :=
  month_name m ++ " " ++ fmt_Y y.

(** [d.strftime('%Y-%m')] *)
Definition strftime_Y_m (y : nat) (m : month) : string :=
  fmt_Y y ++ "-" ++ fmt_m m.

Definition parse_Y (s : string) : option nat :=
  match s with
  | String a (String b (String c (String d EmptyString))) =>
      match digit_value a, digit_value b, digit_value c, digit_value d with
      | Some a, Some b, Some c, Some d => Some (1000 * a + 100 * b + 10 * c + d)%nat
      | _, _, _, _ => None
      end
  | _ => None
  end.

Definition strip_prefix (p s : string) : option string :=
  if String.prefix p s
  then Some (String.substring (String.length p) (String.length s - String.length p) s)
  else None.

Definition parse_B_Y_with (m : month) (s : string) : option (nat * month) :=
  match strip_prefix (month_name m ++ " ") s with
  | Some rest => option_map (fun y => (y, m)) (parse_Y rest)
  | None => None
  end.

Fixpoint first_some {A B} (f : A -> option B) (l : list A) : option B :=
  match l with
  | [] => None
  | a :: l' => match f a with Some b => Some b | None => first_some f l' end
  end.

(** [pd.to_datetime(s, format='%B %Y')] on the strings [strftime('%B %Y')]
    writes: the month's full name, one space, four digits.  Anything else
    raises [ValueError].  (The library also accepts other letter case in the
    month's name, which [strftime] never writes.) *)
Definition to_datetime_B_Y (s : string) : result (nat * month) :=
  match first_some (fun m => parse_B_Y_with m s) all_months with
  | Some ym => Return ym
  | None => Raise ValueError
  end.

(** Timestamps of the first of a month compare by year, then month. *)
Definition ym_leb (a b : nat * month) : bool :=
  ((fst a <? fst b) || (fst a =? fst b) && (month_number (snd a) <=? month_number (snd b)))%nat.

(** ** Sorting and dictionaries *)

(** Insertion into a list sorted by [le], before the first element that is
    not below [x]. *)
Fixpoint insert_sorted {A} (le : A -> A -> bool) (x : A) (l : list A) : list A :=
  match l with
  | [] => [x]
  | y :: l' => if le x y then x :: l else y :: insert_sorted le x l'
  end.

(** A stable sort: elements that compare equal keep their order.  Python's
    [sorted] is stable; pandas' [sort_values] leaves the order of ties to its
    sorting routine, and the results below use the order only through
    sortedness and the multiset of rows. *)
Definition sort_by {A} (le : A -> A -> bool) (l : list A) : list A :=
  fold_right (insert_sorted le) [] l.

(** A [dict]: keys in insertion order, each once. *)
Definition dict (V : Type) : Type := list (string * V).

Fixpoint dict_set {V} (k : string) (v : V) (d : dict V) : dict V :=
  match d with
  | [] => [(k, v)]
  | (k', v') :: d' =>
      if String.eqb k' k then (k', v) :: d' else (k', v') :: dict_set k v d'
  end.

Fixpoint dict_get {V} (k : string) (d : dict V) : option V :=
  match d with
  | [] => None
  | (k', v') :: d' => if String.eqb k' k then Some v' else dict_get k d'
  end.

Definition dict_keys {V} (d : dict V) : list string := map fst d.

(** ** DataFrames *)

(** A row of the input file. *)
Record Row : Type := {
  Date : date;
  Description : string;
  Amount : Q;
  Status : string;
  Category : string
}.

(** A row after [clean_data] has added its columns. *)
Record CleanRow : Type := {
  row : Row;
  Month : nat * month;
  Year : nat;
  MonthName : string;
  CleanMerchant : string;
  TransactionType : string
}.

(** [df.groupby(col)]: the groups in ascending order of their key, each
    with its rows in their order in [df]. *)
Definition group_keys {A} (key : A -> string) (df : list A) : list string :=
  sort_by String.leb (nodup string_dec (map key df)).

Definition groupby {A} (key : A -> string) (df : list A) : list (string * list A) :=
  map (fun k => (k, filter (fun r => String.eqb (key r) k) df)) (group_keys key df).

Definition amount (r : CleanRow) : Q := Amount (row r).

(** ** [clean_data] *)

Definition add_columns (r : Row) : CleanRow := {|
  row := r;
  Month := (year (Date r), month_of (Date r));
  Year := year (Date r);
  MonthName := strftime_B_Y (year (Date r)) (month_of (Date r));
  CleanMerchant := clean_merchant_name (Description r);
  TransactionType := if Qlt_bool 0 (Amount r) then "Deposit" else "Withdrawal"
|}.

(** The value returned: the posted rows, with the added columns. *)
Definition clean_data (df : list Row) : list CleanRow :=
  filter (fun r => String.eqb (Status (row r)) "Posted") (map add_columns df).

(** ** [calculate_monthly_totals] *)

Record Stats : Type := {
  deposits : Q;
  spending : Q;
  net : Q;
  transaction_count : nat
}.

Definition month_stats (month_df : list CleanRow) : Stats :=
  let deposits := qsum (map amount (filter (fun r => Qlt_bool 0 (amount r)) month_df)) in
  let spending := Qabs (qsum (map amount (filter (fun r => Qlt_bool (amount r) 0) month_df))) in
  let net := deposits - spending in
  {| deposits := deposits;
     spending := spending;
     net := net;
     transaction_count := List.length month_df |}.

Definition calculate_monthly_totals (df_posted : list CleanRow) : dict Stats :=
  fold_left
    (fun monthly_stats g => dict_set (fst g) (month_stats (snd g)) monthly_stats)
    (groupby MonthName df_posted) [].

(** ** [create_spending_report] *)

(** A row of a month's merchant table; the merchant is its index. *)
Record MerchantRow : Type := {
  merchant : string;
  total : Q;
  count : nat
}.

Definition merchant_table (spending_df : list CleanRow) : list MerchantRow :=
  let merchant_spending :=
    map (fun g => {| merchant := fst g;
                     total := round2 (qsum (map amount (snd g)));
                     count := List.length (snd g) |})
        (groupby CleanMerchant spending_df) in
  let merchant_spending :=
    map (fun r => {| merchant := merchant r;
                     total := Qabs (total r);
                     count := count r |}) merchant_spending in
  sort_by (fun a b => Qle_bool (total b) (total a)) merchant_spending.

Definition create_spending_report (df_posted : list CleanRow) : dict (list MerchantRow) :=
  fold_left
    (fun spending_report g =>
       let spending_df := filter (fun r => Qlt_bool (amount r) 0) (snd g) in
       if (List.length spending_df =? 0)%nat then spending_report
       else dict_set (fst g) (merchant_table spending_df) spending_report)
    (groupby MonthName df_posted) [].

(** ** [print_monthly_summary] *)

(** [sorted(d.keys(), key=lambda x: pd.to_datetime(x, format='%B %Y'))] *)
Definition sorted_months {V} (d : dict V) : result (list string) :=
  keyed <- mapM (fun k => t <- to_datetime_B_Y k ;; Return (t, k)) (dict_keys d) ;;
  Return (map snd (sort_by (fun a b => ym_leb (fst a) (fst b)) keyed)).

(** [d[k]] *)
Definition dict_item {V} (d : dict V) (k : string) : result V :=
  match dict_get k d with
  | Some v => Return v
  | None => Raise (KeyError k)
  end.

(** What the function prints, as the values handed to the format
    specifiers. *)
Record SummaryTable : Type := {
  month_lines : list (string * Stats);
  total_line : Q * Q * Q * nat;
  average_line : Q * Q * Q * Q
}.

Definition print_monthly_summary (monthly_stats : dict Stats) (df_posted : list CleanRow)
  : result SummaryTable :=
  months <- sorted_months monthly_stats ;;
  lines <- mapM (fun month => stats <- dict_item monthly_stats month ;;
                              Return (month, stats)) months ;;
  let total_deposits := fold_left (fun acc l => acc + deposits (snd l)) lines 0 in
  let total_spending := fold_left (fun acc l => acc + spending (snd l)) lines 0 in
  let num_months := List.length monthly_stats in
  avg_deposits <- py_div total_deposits num_months ;;
  avg_spending <- py_div total_spending num_months ;;
  avg_net <- py_div (total_deposits - total_spending) num_months ;;
  avg_transactions <- py_div (inject_Z (Z.of_nat (List.length df_posted))) num_months ;;
  Return {| month_lines := lines;
            total_line := (total_deposits, total_spending,
                           total_deposits - total_spending, List.length df_posted);
            average_line := (avg_deposits, avg_spending, avg_net, avg_transactions) |}.

(** ** [print_spending_details] *)

(** [(x / month_total) * 100]; [None] is [nan]. *)
Definition percentage (x month_total : Q) : option Q :=
  option_map (fun q => q * 100) (np_div x month_total).

Definition month_total_of (merchant_data : list MerchantRow) : Q :=
  qsum (map total merchant_data).

(** A printed merchant line; the percentage is shown with one decimal. *)
Record DetailLine : Type := {
  line_merchant : string;
  line_total : Q;
  line_count : nat;
  line_percentage : option Q
}.

(** A month's block: its heading, its merchant lines, and the line for the
    merchants past the tenth (how many, their total, their percentage). *)
Record MonthBlock : Type := {
  block_month : string;
  block_total : Q;
  block_lines : list DetailLine;
  block_others : option (nat * Q * option Q)
}.

Definition month_block (month : string) (merchant_data : list MerchantRow) : MonthBlock :=
  let month_total := month_total_of merchant_data in
  let num_to_show := Nat.min 10 (List.length merchant_data) in
  {| block_month := month;
     block_total := month_total;
     block_lines :=
       map (fun r => {| line_merchant := merchant r;
                        line_total := total r;
                        line_count := count r;
                        line_percentage :=
                          option_map round1 (percentage (total r) month_total) |})
           (firstn num_to_show merchant_data);
     block_others :=
       if (10 <? List.length merchant_data)%nat then
         let remaining := (List.length merchant_data - 10)%nat in
         let remaining_total := qsum (map total (skipn 10 merchant_data)) in
         Some (remaining, remaining_total,
               option_map round1 (percentage remaining_total month_total))
       else None |}.

Definition print_spending_details (spending_report : dict (list MerchantRow))
  : result (list MonthBlock) :=
  months <- sorted_months spending_report ;;
  mapM (fun month => merchant_data <- dict_item spending_report month ;;
                     Return (month_block month merchant_data)) months.

(** ** [export_to_csv] *)

Module Summary.
Record Row : Type := {
  Month : string;
  Deposits : Q;
  Spending : Q;
  Net : Q;
  Transaction_Count : nat
}.
End Summary.

Module Details.
Record Row : Type := {
  Month : string;
  Merchant : string;
  Amount : Q;
  Transaction_Count : nat;
  Percentage_of_Month : option Q
}.
End Details.

(** [DataFrame(data).sort_values(by)]: a frame built from no rows has no
    columns, and sorting it by a column raises [KeyError]. *)
Definition sort_values {A} (by_ : string) (le : A -> A -> bool) (data : list A)
  : result (list A) :=
  match data with
  | [] => Raise (KeyError by_)
  | _ => Return (sort_by le data)
  end.

(** The first half of [export_to_csv]: the rows of
    [<prefix>monthly_summary.csv]. *)
Definition export_monthly_summary (monthly_stats : dict Stats) : result (list Summary.Row) :=
  summary_data <-
    mapM (fun item =>
            month_date <- to_datetime_B_Y (fst item) ;;
            Return {| Summary.Month := strftime_Y_m (fst month_date) (snd month_date);
                      Summary.Deposits := deposits (snd item);
                      Summary.Spending := spending (snd item);
                      Summary.Net := net (snd item);
                      Summary.Transaction_Count := transaction_count (snd item) |})
         monthly_stats ;;
  sort_values "Month" (fun a b => String.leb (Summary.Month a) (Summary.Month b))
              summary_data.

(** The second half: the rows of [<prefix>spending_details.csv]. *)
Definition export_spending_details (spending_report : dict (list MerchantRow))
  : result (list Details.Row) :=
  details_data <-
    mapM (fun item =>
            month_date <- to_datetime_B_Y (fst item) ;;
            let month_total := month_total_of (snd item) in
            Return (map (fun r =>
                           {| Details.Month := strftime_Y_m (fst month_date) (snd month_date);
                              Details.Merchant := merchant r;
                              Details.Amount := total r;
                              Details.Transaction_Count := count r;
                              Details.Percentage_of_Month :=
                                option_map round1 (percentage (total r) month_total) |})
                        (snd item)))
         spending_report ;;
  sort_values "Month"
    (fun a b => String.ltb (Details.Month a) (Details.Month b)
                || String.eqb (Details.Month a) (Details.Month b)
                   && Qle_bool (Details.Amount b) (Details.Amount a))
    (List.concat details_data).

(** The summary file is written before the details are built. *)
Definition export_to_csv (monthly_stats : dict Stats)
    (spending_report : dict (list MerchantRow))
  : result (list Summary.Row * list Details.Row) :=
  summary_df <- export_monthly_summary monthly_stats ;;
  details_df <- export_spending_details spending_report ;;
  Return (summary_df, details_df).

(** ** [main], from [clean_data] on *)

Record Output : Type := {
  summary_table : SummaryTable;
  spending_blocks : list MonthBlock;
  csv_files : option (list Summary.Row * list Details.Row)
}.

Definition main (df : list Row) (csv_prefix : option string) : result Output :=
  let df_posted := clean_data df in
  let monthly_stats := calculate_monthly_totals df_posted in
  table <- print_monthly_summary monthly_stats df_posted ;;
  let spending_report := create_spending_report df_posted in
  blocks <- print_spending_details spending_report ;;
  match csv_prefix with
  | Some (String _ _) =>
      files <- export_to_csv monthly_stats spending_report ;;
      Return {| summary_table := table; spending_blocks := blocks;
                csv_files := Some files |}
  | _ => Return {| summary_table := table; spending_blocks := blocks;
                   csv_files := None |}
  end.

(** ** Running the program on the example of the specification *)

Definition mk_row (y : nat) (m : month) (d : nat) (desc : string) (a : Q) (st : string) : Row :=
  {| Date := {| year := y; month_of := m; day := d |};
     Description := desc; Amount := a; Status := st; Category := "" |}.

Definition march_2024 : list Row :=
  [ mk_row 2024 March 1 "PAYCHECK" 1500 "Posted";
    mk_row 2024 March 2 "UBER EATS ***1234" (-(4215 # 100)) "Posted";
    mk_row 2024 March 3 "NETFLIX.COM" (-(999 # 100)) "Posted" ].

(** ** The specification's reading of [clean_merchant_name] *)

(** An ordered rule: a test on the trimmed description and the name it
    gives. *)
Definition rule : Type := (string -> bool) * (string -> string).

Definition spec_rules : list rule :=
  [ (PyStr.contains "UBER EATS", fun _ => "Uber Eats");
    (PyStr.contains "PAYPAL",
     fun d => if PyStr.contains "INST XFER" d then "PayPal Transfer" else "PayPal");
    (PyStr.contains "CAREERBUILDER", fun _ => "CareerBuilder Paycheck");
    (PyStr.contains "INTEREST PAID", fun _ => "Interest Income");
    (PyStr.contains "Georgia Departme", fun _ => "Georgia State Tax Refund");
    (fun d => PyStr.contains "IRS  TREAS" d && PyStr.contains "TAX REF" d,
     fun _ => "Federal Tax Refund") ].

(** The default rule in the specification's words: the part before the
    first ["***"], cut to 50 characters, trimmed. *)
Definition spec_default (d : string) : string :=
  PyStr.strip (PyStr.slice_to 50 (PyStr.split_head "***" d)).

(** First match wins. *)
Fixpoint first_match (rules : list rule) (default : string -> string) (d : string) : string :=
  match rules with
  | [] => default d
  | (test, name) :: rules' => if test d then name d else first_match rules' default d
  end.

Definition spec_clean_merchant (desc : string) : string :=
  first_match spec_rules spec_default (PyStr.strip desc).

(** No named pattern of the rule list matches [d]. *)
Definition matches_no_rule (d : string) : bool :=
  forallb (fun r : rule => negb (fst r d)) spec_rules.

(** ** The specification's reading of the aggregates *)

(** The posted rows of the input whose date falls in the month named
    [m]. *)
Definition posted_in_month (m : string) (df : list Row) : list Row :=
  filter (fun r => String.eqb (Status r) "Posted"
                   && String.eqb (strftime_B_Y (year (Date r)) (month_of (Date r))) m) df.

(** The month's figures in the specification's words. *)
Definition spec_month_stats (rows : list Row) : Stats :=
  let dep := qsum (map Amount (filter (fun r => Qlt_bool 0 (Amount r)) rows)) in
  let sp := Qabs (qsum (map Amount (filter (fun r => Qlt_bool (Amount r) 0) rows))) in
  {| deposits := dep; spending := sp; net := dep - sp;
     transaction_count := List.length rows |}.

(** What the loop of [create_spending_report] keeps of a month's group. *)
Definition report_entry (g : string * list CleanRow) : option (list MerchantRow) :=
  let spending_df := filter (fun r => Qlt_bool (amount r) 0) (snd g) in
  if (List.length spending_df =? 0)%nat then None else Some (merchant_table spending_df).

(** A merchant's row in the specification's words: the absolute value of
    the sum of its amounts, rounded to cents, and the number of its rows. *)
Definition spec_merchant_row (spending_df : list CleanRow) (name : string) : MerchantRow :=
  let rows := filter (fun r => String.eqb (CleanMerchant r) name) spending_df in
  {| merchant := name;
     total := round2 (Qabs (qsum (map amount rows)));
     count := List.length rows |}.

(** The sum of the amounts of a group of [groupby]. *)
Definition group_sum (g : string * list CleanRow) : Q := qsum (map amount (snd g)).

(** ** Month cells and dictionary keys *)

(** The year is written with four digits. *)
Definition four_digits (y : nat) : Prop := (y / 1000 < 10)%nat.

Definition month_of_number (n : nat) : option month :=
  find (fun m => (month_number m =? n)%nat) all_months.

(** A [Month] cell of the exported files read back: four digits, a hyphen
    and two digits.  The repository has no reader for its files; the function
    serves to tell the cells of different months apart. *)
Definition parse_Y_m (s : string) : option (nat * month) :=
  match s with
  | String a (String b (String c (String d (String h (String e (String f EmptyString)))))) =>
      if Ascii.eqb h "-" then
        match parse_Y (String a (String b (String c (String d EmptyString)))),
              digit_value e, digit_value f with
        | Some y, Some e, Some f =>
            option_map (fun m => (y, m)) (month_of_number (10 * e + f))
        | _, _, _ => None
        end
      else None
  | _ => None
  end.

(** The year and month a dictionary key names. *)
Definition ym_of_key (k : string) : nat * month :=
  match to_datetime_B_Y k with
  | Return ym => ym
  | Raise _ => (0%nat, January)
  end.

(** The key is a month name as [clean_data] writes it. *)
Definition month_key (k : string) : Prop :=
  exists y m, four_digits y /\ k = strftime_B_Y y m.

(** The row the export builds from an item of the monthly totals. *)
Definition summary_row (item : string * Stats) : Summary.Row :=
  {| Summary.Month := strftime_Y_m (fst (ym_of_key (fst item))) (snd (ym_of_key (fst item)));
     Summary.Deposits := deposits (snd item);
     Summary.Spending := spending (snd item);
     Summary.Net := net (snd item);
     Summary.Transaction_Count := transaction_count (snd item) |}.

(** Two month cells in "YYYY-MM" form, the first of an earlier month. *)
Definition month_cell_lt (a b : string) : Prop :=
  exists ya ma yb mb,
    four_digits ya /\ four_digits yb
    /\ a = strftime_Y_m ya ma /\ b = strftime_Y_m yb mb
    /\ (ya < yb \/ ya = yb /\ month_number ma < month_number mb)%nat.

(** ** Sums of reported percentages *)

(** The sum of a column of percentages; [None] when one of them is not a
    number. *)
Fixpoint opt_qsum (l : list (option Q)) : option Q :=
  match l with
  | [] => Some 0
  | Some x :: l' => option_map (Qplus x) (opt_qsum l')
  | None :: _ => None
  end.

(** The percentages a month's block shows: one per merchant line, and the
    one of the line for the other merchants when there is one. *)
Definition block_percentages (b : MonthBlock) : list (option Q) :=
  map line_percentage (block_lines b)
  ++ match block_others b with
     | Some (_, _, p) => [p]
     | None => []
     end.

(** The amounts behind a block's percentages. *)
Definition block_amounts (merchant_data : list MerchantRow) : list Q :=
  map total (firstn 10 merchant_data)
  ++ (if (10 <? List.length merchant_data)%nat
      then [qsum (map total (skipn 10 merchant_data))]
      else []).

(** The percentage column of the exported details for one month cell. *)
Definition month_percentages (cell : string) (rows : list Details.Row) : list (option Q) :=
  map Details.Percentage_of_Month
      (filter (fun r => String.eqb (Details.Month r) cell) rows).

(** The row the export builds for a merchant of a month. *)
Definition detail_row (cell : string) (month_total : Q) (r : MerchantRow) : Details.Row :=
  {| Details.Month := cell;
     Details.Merchant := merchant r;
     Details.Amount := total r;
     Details.Transaction_Count := count r;
     Details.Percentage_of_Month := option_map round1 (percentage (total r) month_total) |}.

(** The month cell of a dictionary key. *)
Definition cell_of_key (k : string) : string :=
  strftime_Y_m (fst (ym_of_key k)) (snd (ym_of_key k)).

(** The rows the export builds for an item of the spending report. *)
Definition detail_rows (item : string * list MerchantRow) : list Details.Row :=
  map (detail_row (cell_of_key (fst item)) (month_total_of (snd item))) (snd item).

(** An input file whose only row is pending. *)
Definition pending_only : list Row :=
  [mk_row 2024 March 9 "RENT" (- 500) "Pending"].

(** Six merchants with one dollar each in one month. *)
Definition six_merchants : list Row :=
  map (fun name => mk_row 2024 March 1 name (- 1) "Posted")
      ["A"; "B"; "C"; "D"; "E"; "F"].

(** ** Parts of a string *)

(** [a] occurs in [b] as a contiguous part. *)
Definition part_of (a b : string) : Prop :=
  exists l r, b = (l ++ a ++ r)%string.

(** ** The order of the calendar on dictionary keys *)

(** The first year and month come before the second. *)
Definition ym_lt (a b : nat * month) : Prop :=
  (fst a < fst b \/ fst a = fst b /\ month_number (snd a) < month_number (snd b))%nat.

(** The month the first key names comes before the month of the second. *)
Definition chrono_lt (k1 k2 : string) : Prop := ym_lt (ym_of_key k1) (ym_of_key k2).

(** The statistics of a month of the dictionary; zeros for a month it does
    not hold. *)
Definition stats_of (monthly_stats : dict Stats) (month : string) : Stats :=
  match dict_get month monthly_stats with
  | Some s => s
  | None => {| deposits := 0; spending := 0; net := 0; transaction_count := 0 |}
  end.

(** ** The order of the exported details *)

(** The first row belongs to an earlier month, or to the same month with
    an amount at least as large. *)
Definition details_before (a b : Details.Row) : Prop :=
  month_cell_lt (Details.Month a) (Details.Month b)
  \/ (Details.Month a = Details.Month b /\ Details.Amount b <= Details.Amount a).

(** The comparison [sort_values(['Month', 'Amount'], ascending=[True, False])]
    sorts by. *)
Definition details_le (a b : Details.Row) : bool :=
  String.ltb (Details.Month a) (Details.Month b)
  || String.eqb (Details.Month a) (Details.Month b)
     && Qle_bool (Details.Amount b) (Details.Amount a).

(** ** Rounded figures *)

(** [p] is [x] rounded to two decimals: a whole number of cents, at most
    half a cent from [x]. *)
Definition rounded_to_cents (x p : Q) : Prop :=
  (exists k : Z, p == k # 100) /\ Qabs (p - x) <= 1 # 200.

(** [p] is [x] rounded to one decimal: a whole number of tenths, at most
    half a tenth from [x]. *)
Definition rounded_to_tenths (x p : Q) : Prop :=
  (exists k : Z, p == k # 10) /\ Qabs (p - x) <= 1 # 20.

(** ** Results on strings *)

Module PyStrFacts.
Import PyStr.

Lemma rstrip_all_space s : all_space s = true -> rstrip s = "".
Proof.
  induction s as [|c s IH]; simpl; [reflexivity|].
  intros H. apply andb_prop in H as [Hc Hs].
  rewrite (IH Hs), Hc. reflexivity.
Qed.

Lemma rstrip_empty_all_space s : rstrip s = "" -> all_space s = true.
Proof.
  induction s as [|c s IH]; simpl; [reflexivity|].
  destruct (rstrip s) eqn:E; [|discriminate].
  destruct (is_space c); [|discriminate].
  intros _. now rewrite IH.
Qed.

Lemma rstrip_app_space s w : all_space w = true -> rstrip (s ++ w) = rstrip s.
Proof.
  intros Hw. induction s as [|c s IH]; simpl.
  - now apply rstrip_all_space.
  - now rewrite IH.
Qed.

Lemma rstrip_decomp s : exists w, all_space w = true /\ s = rstrip s ++ w.
Proof.
  induction s as [|c s (w & Hw & E)]; simpl.
  - now exists "".
  - destruct (rstrip s) eqn:R.
    + destruct (is_space c) eqn:C.
      * exists (String c s). simpl. split; [|reflexivity].
        rewrite C. simpl. now apply rstrip_empty_all_space.
      * exists w. split; [assumption|]. simpl. now rewrite E at 1.
    + exists w. split; [assumption|]. simpl. now rewrite E at 1.
Qed.

Lemma rstrip_idem s : rstrip (rstrip s) = rstrip s.
Proof.
  destruct (rstrip_decomp s) as (w & Hw & E).
  rewrite E at 2. now rewrite rstrip_app_space.
Qed.

Lemma lstrip_no_lead s : no_lead s = true -> lstrip s = s.
Proof.
  destruct s as [|c s]; simpl; [reflexivity|].
  now destruct (is_space c).
Qed.

Lemma no_lead_lstrip s : no_lead (lstrip s) = true.
Proof.
  induction s as [|c s IH]; simpl; [reflexivity|].
  destruct (is_space c) eqn:C; [assumption|]. simpl. now rewrite C.
Qed.

Lemma no_lead_rstrip s : no_lead s = true -> no_lead (rstrip s) = true.
Proof.
  destruct s as [|c s]; simpl; [reflexivity|].
  intros H. destruct (rstrip s); [|assumption].
  apply negb_true_iff in H. rewrite H. simpl. now rewrite H.
Qed.

Lemma no_lead_strip s : no_lead (strip s) = true.
Proof. apply no_lead_rstrip, no_lead_lstrip. Qed.

Lemma strip_no_lead s : no_lead s = true -> strip s = rstrip s.
Proof. intros H. unfold strip. now rewrite lstrip_no_lead. Qed.

Lemma strip_idem s : strip (strip s) = strip s.
Proof.
  rewrite (strip_no_lead (strip s)) by apply no_lead_strip.
  unfold strip. apply rstrip_idem.
Qed.

Lemma no_lead_split_head sep s : no_lead s = true -> no_lead (split_head sep s) = true.
Proof.
  destruct s as [|c s]; simpl.
  - now destruct sep.
  - intros H. destruct sep as [|a sep]; [reflexivity|].
    destruct (Ascii.ascii_dec a c); [|assumption].
    now destruct (String.prefix sep s).
Qed.

Lemma slice_to_cons n c s : slice_to (S n) (String c s) = String c (slice_to n s).
Proof. reflexivity. Qed.

Lemma slice_to_all n s : (String.length s <= n)%nat -> slice_to n s = s.
Proof.
  unfold slice_to.
  revert n. induction s as [|c s IH]; intros [|n] H; simpl in *; try reflexivity; try lia.
  f_equal. apply IH. lia.
Qed.

Lemma slice_to_app_l n a b :
  (n <= String.length a)%nat -> slice_to n (a ++ b) = slice_to n a.
Proof.
  unfold slice_to.
  revert n. induction a as [|c a IH]; intros [|n] H; simpl in *.
  - now destruct b.
  - lia.
  - reflexivity.
  - f_equal. apply IH. lia.
Qed.

Lemma slice_to_app_r n a b :
  (String.length a <= n)%nat ->
  slice_to n (a ++ b) = a ++ slice_to (n - String.length a) b.
Proof.
  unfold slice_to.
  revert n. induction a as [|c a IH]; intros n H; simpl in *.
  - now rewrite Nat.sub_0_r.
  - destruct n as [|n]; [lia|]. simpl. f_equal. apply IH. lia.
Qed.

Lemma all_space_slice_to n s : all_space s = true -> all_space (slice_to n s) = true.
Proof.
  unfold slice_to.
  revert n. induction s as [|c s IH]; intros [|n] H; simpl in *; try reflexivity.
  apply andb_prop in H as [Hc Hs]. now rewrite Hc, IH.
Qed.

Lemma no_lead_app a b : a <> "" -> no_lead (a ++ b) = no_lead a.
Proof. destruct a; [congruence|reflexivity]. Qed.

Lemma strip_all_space s : all_space s = true -> strip s = "".
Proof.
  intros H. unfold strip. apply rstrip_all_space.
  induction s as [|c s IH]; simpl in *; [reflexivity|].
  apply andb_prop in H as [Hc Hs]. rewrite Hc. auto.
Qed.

(** Cutting before or after the trailing spaces are removed gives the same
    name: the program's two-step default and the specification's one-step
    default agree. *)
Lemma cut_then_strip x :
  no_lead x = true ->
  (let cleaned := strip x in
   if (50 <? String.length cleaned)%nat then strip (slice_to 50 cleaned) else cleaned)
  = strip (slice_to 50 x).
Proof.
  intros Hx. cbv zeta. rewrite (strip_no_lead x Hx).
  destruct (rstrip_decomp x) as (w & Hw & E).
  destruct (50 <? String.length (rstrip x))%nat eqn:L.
  - apply Nat.ltb_lt in L. f_equal. rewrite E at 2.
    rewrite slice_to_app_l by lia. reflexivity.
  - apply Nat.ltb_ge in L. rewrite E at 2. rewrite slice_to_app_r by assumption.
    destruct (rstrip x) eqn:R.
    + simpl. symmetry. apply strip_all_space. now apply all_space_slice_to.
    + rewrite strip_no_lead.
      * rewrite rstrip_app_space by now apply all_space_slice_to.
        rewrite <- R. now rewrite rstrip_idem.
      * rewrite no_lead_app by discriminate. rewrite <- R. now apply no_lead_rstrip.
Qed.

End PyStrFacts.

(** ** Results on numbers *)

Module NumFacts.

Lemma round_half_even_error (n : Z) (d : positive) :
  (Z.abs (2 * (round_half_even (n # d) * Zpos d - n)) <= Zpos d)%Z.
Proof.
  unfold round_half_even. cbn [Qnum Qden].
  pose proof (Z.div_mod n (Zpos d) ltac:(lia)) as E.
  pose proof (Z.mod_pos_bound n (Zpos d) ltac:(lia)) as B.
  destruct (Z.compare_spec (2 * (n mod Zpos d)) (Zpos d)); [destruct (Z.even _)| |]; nia.
Qed.

Lemma round_half_even_opp (n : Z) (d : positive) :
  round_half_even ((- n) # d) = (- round_half_even (n # d))%Z.
Proof.
  unfold round_half_even. cbn [Qnum Qden].
  pose proof (Z.div_mod n (Zpos d) ltac:(lia)) as E.
  pose proof (Z.mod_pos_bound n (Zpos d) ltac:(lia)) as B.
  destruct (Z.eq_dec (n mod Zpos d) 0) as [Z0|NZ].
  - rewrite (Z.div_opp_l_z n (Zpos d)) by lia.
    rewrite (Z.mod_opp_l_z n (Zpos d)) by lia. rewrite Z0.
    change (2 * 0 ?= Zpos d)%Z with Lt. reflexivity.
  - rewrite (Z.div_opp_l_nz n (Zpos d)) by lia.
    rewrite (Z.mod_opp_l_nz n (Zpos d)) by lia.
    destruct (Z.compare_spec (2 * (n mod Zpos d)) (Zpos d)) as [H|H|H];
      destruct (Z.compare_spec (2 * (Zpos d - n mod Zpos d)) (Zpos d)) as [H'|H'|H'];
      try lia.
    replace (- (n / Zpos d) - 1)%Z with (- (n / Zpos d + 1))%Z by lia.
    rewrite Z.even_opp, Z.even_add. simpl (Z.even 1).
    destruct (Z.even (n / Zpos d)); simpl; lia.
Qed.

Lemma round_half_even_nonneg (n : Z) (d : positive) :
  (0 <= n)%Z -> (0 <= round_half_even (n # d))%Z.
Proof.
  intros H. unfold round_half_even. cbn [Qnum Qden].
  pose proof (Z.div_pos n (Zpos d) H ltac:(lia)).
  destruct (_ ?= _)%Z; [destruct (Z.even _)| |]; lia.
Qed.

Lemma round_half_even_nonpos (n : Z) (d : positive) :
  (n <= 0)%Z -> (round_half_even (n # d) <= 0)%Z.
Proof.
  intros H. pose proof (round_half_even_nonneg (- n) d ltac:(lia)) as P.
  rewrite round_half_even_opp in P. lia.
Qed.

(** Rounding to cents moves a number by at most half a cent. *)
Lemma round2_error x : Qabs (round2 x - x) <= 1 # 200.
Proof.
  destruct x as [n d]. unfold round2, round_nd.
  change (10 ^ Z.of_nat 2)%Z with 100%Z. change (Z.to_pos 100) with 100%positive.
  unfold Qmult. cbn [Qnum Qden inject_Z].
  pose proof (round_half_even_error (n * 100) (d * 1)) as E.
  set (r := round_half_even (n * 100 # d * 1)) in *.
  apply Qabs_Qle_condition. unfold Qle, Qminus, Qplus, Qopp. cbn [Qnum Qden].
  split; nia.
Qed.

(** Rounding to tenths moves a number by at most half a tenth. *)
Lemma round1_error x : Qabs (round1 x - x) <= 1 # 20.
Proof.
  destruct x as [n d]. unfold round1, round_nd.
  change (10 ^ Z.of_nat 1)%Z with 10%Z. change (Z.to_pos 10) with 10%positive.
  unfold Qmult. cbn [Qnum Qden inject_Z].
  pose proof (round_half_even_error (n * 10) (d * 1)) as E.
  set (r := round_half_even (n * 10 # d * 1)) in *.
  apply Qabs_Qle_condition. unfold Qle, Qminus, Qplus, Qopp. cbn [Qnum Qden].
  split; nia.
Qed.

(** Rounding commutes with the absolute value: half to even is symmetric
    about zero. *)
Lemma round2_abs x : Qabs (round2 x) = round2 (Qabs x).
Proof.
  destruct x as [n d]. unfold round2, round_nd.
  change (10 ^ Z.of_nat 2)%Z with 100%Z. change (Z.to_pos 100) with 100%positive.
  unfold Qmult, Qabs. cbn [Qnum Qden inject_Z]. f_equal.
  destruct (Z.le_ge_cases 0 n) as [P|N].
  - rewrite (Z.abs_eq n) by assumption.
    apply Z.abs_eq, round_half_even_nonneg. lia.
  - rewrite (Z.abs_neq n) by assumption.
    replace (- n * 100)%Z with (- (n * 100))%Z by lia.
    rewrite round_half_even_opp.
    apply Z.abs_neq, round_half_even_nonpos. lia.
Qed.

Lemma round2_nonpos x : x <= 0 -> round2 x <= 0.
Proof.
  destruct x as [n d]. unfold Qle, round2, round_nd. cbn [Qnum Qden].
  intros H. pose proof (round_half_even_nonpos (n * Qnum (inject_Z (10 ^ Z.of_nat 2)))
                          (d * Qden (inject_Z (10 ^ Z.of_nat 2)))) as P.
  unfold Qmult. simpl in *. lia.
Qed.

Lemma Qlt_bool_iff x y : Qlt_bool x y = true <-> x < y.
Proof.
  unfold Qlt_bool. rewrite negb_true_iff. split.
  - intros H. apply Qnot_le_lt. intros L. apply Qle_bool_iff in L. congruence.
  - intros H. destruct (Qle_bool y x) eqn:E; [|reflexivity].
    apply Qle_bool_iff in E. exfalso. exact (Qlt_not_le _ _ H E).
Qed.

Lemma qsum_perm : Proper (@Permutation Q ==> Qeq) qsum.
Proof.
  intros l l' P. induction P; simpl.
  - reflexivity.
  - now rewrite IHP.
  - ring.
  - now rewrite IHP1.
Qed.
#[global] Existing Instance qsum_perm.

Lemma qsum_app l l' : qsum (l ++ l') == qsum l + qsum l'.
Proof. induction l; simpl; [ring|rewrite IHl; ring]. Qed.

Lemma qsum_nonpos l : Forall (fun x => x <= 0) l -> qsum l <= 0.
Proof.
  induction 1; simpl; [apply Qle_refl|].
  setoid_replace 0 with (0 + 0) by ring. now apply Qplus_le_compat.
Qed.

Lemma qsum_nonneg l : Forall (fun x => 0 <= x) l -> 0 <= qsum l.
Proof.
  induction 1; simpl; [apply Qle_refl|].
  setoid_replace 0 with (0 + 0) by ring. now apply Qplus_le_compat.
Qed.

(** A sum of numbers at most [b], with [b <= 0] and at least one term, is
    at most [b]. *)
Lemma qsum_le_bound b l :
  b <= 0 -> l <> [] -> Forall (fun x => x <= b) l -> qsum l <= b.
Proof.
  intros Hb Hne H. destruct H as [|x l Hx Hl]; [congruence|]. simpl.
  setoid_replace b with (b + 0) by ring. apply Qplus_le_compat; [assumption|].
  apply qsum_nonpos. eapply Forall_impl; [|exact Hl].
  intros a Ha. cbv beta in Ha. eapply Qle_trans; eassumption.
Qed.

End NumFacts.

(** ** Results on sorting, dictionaries and [groupby] *)

Module FrameFacts.
Local Open Scope list_scope.

Section Sort.
Context {A : Type} (le : A -> A -> bool).

Lemma insert_sorted_perm x l : Permutation (insert_sorted le x l) (x :: l).
Proof.
  induction l as [|y l IH]; simpl; [reflexivity|].
  destruct (le x y); [reflexivity|].
  rewrite IH. apply perm_swap.
Qed.

Lemma sort_by_perm l : Permutation (sort_by le l) l.
Proof.
  induction l as [|x l IH]; simpl; [reflexivity|].
  rewrite insert_sorted_perm. now constructor.
Qed.

Hypothesis le_total : forall a b, le a b = true \/ le b a = true.

Lemma insert_sorted_sorted x l :
  Sorted (fun a b => le a b = true) l ->
  Sorted (fun a b => le a b = true) (insert_sorted le x l).
Proof.
  induction 1 as [|y l S IH H]; simpl; [repeat constructor|].
  destruct (le x y) eqn:E.
  - constructor; [now constructor|now constructor].
  - constructor; [assumption|].
    destruct l as [|z l]; simpl.
    + constructor. destruct (le_total x y); congruence.
    + destruct (le x z); constructor.
      * destruct (le_total x y); congruence.
      * now inversion H.
Qed.

Lemma sort_by_sorted l : Sorted (fun a b => le a b = true) (sort_by le l).
Proof.
  induction l as [|x l IH]; simpl; [constructor|].
  now apply insert_sorted_sorted.
Qed.

End Sort.

Lemma sort_by_in {A} (le : A -> A -> bool) l x : In x (sort_by le l) <-> In x l.
Proof.
  split; apply Permutation_in; [|symmetry]; apply sort_by_perm.
Qed.

Lemma sort_by_nil {A} (le : A -> A -> bool) l : sort_by le l = [] -> l = [].
Proof.
  intros E. apply Permutation_nil. rewrite <- E. apply sort_by_perm.
Qed.

Section Dict.
Context {V : Type}.
Implicit Types (d : dict V) (k : string) (v : V).

Lemma dict_set_fresh k v d : ~ In k (dict_keys d) -> dict_set k v d = d ++ [(k, v)].
Proof.
  induction d as [|[k' v'] d IH]; simpl; [reflexivity|].
  intros N. destruct (String.eqb_spec k' k) as [->|_]; [tauto|].
  f_equal. apply IH. tauto.
Qed.

Lemma dict_get_none k d : ~ In k (dict_keys d) -> dict_get k d = None.
Proof.
  induction d as [|[k' v'] d IH]; simpl; [reflexivity|].
  intros N. destruct (String.eqb_spec k' k) as [->|_]; [tauto|].
  apply IH. tauto.
Qed.

Lemma dict_get_in k v d : dict_get k d = Some v -> In (k, v) d.
Proof.
  induction d as [|[k' v'] d IH]; simpl; [discriminate|].
  destruct (String.eqb_spec k' k) as [->|_].
  - intros [= ->]. now left.
  - intros H. right. now apply IH.
Qed.

Lemma dict_get_nodup k v d : NoDup (dict_keys d) -> In (k, v) d -> dict_get k d = Some v.
Proof.
  induction d as [|[k' v'] d IH]; simpl; [tauto|].
  intros ND [[= -> ->]|I]; inversion ND as [|? ? N ND']; subst.
  - now rewrite String.eqb_refl.
  - destruct (String.eqb_spec k' k) as [->|_]; [|now apply IH].
    exfalso. apply N. now apply (in_map fst) in I.
Qed.

End Dict.

(** The loop [for g in groups: if h(g) is not None: d[key(g)] = h(g)]
    appends one item per kept group when the groups' keys are distinct. *)
Lemma fold_dict_set {G V} (key : G -> string) (h : G -> option V) (gs : list G) (acc : dict V) :
  NoDup (dict_keys acc ++ map key gs) ->
  fold_left (fun d g => match h g with
                        | Some v => dict_set (key g) v d
                        | None => d
                        end) gs acc
  = acc ++ flat_map (fun g => match h g with
                              | Some v => [(key g, v)]
                              | None => []
                              end) gs.
Proof.
  revert acc. induction gs as [|g gs IH]; intros acc ND; simpl.
  - now rewrite app_nil_r.
  - pose proof (NoDup_remove_1 _ _ _ ND) as ND1.
    pose proof (NoDup_remove_2 _ _ _ ND) as ND2.
    destruct (h g) as [v|].
    + rewrite dict_set_fresh by (intros I; apply ND2, in_or_app; now left).
      rewrite IH.
      * now rewrite <- app_assoc.
      * unfold dict_keys in *. rewrite map_app, <- app_assoc. exact ND.
    + now apply IH.
Qed.

Section GroupBy.
Context {A : Type} (key : A -> string).

Lemma groupby_keys df : map fst (groupby key df) = group_keys key df.
Proof. unfold groupby. rewrite map_map. simpl. apply map_id. Qed.

Lemma group_keys_nodup df : NoDup (group_keys key df).
Proof.
  eapply Permutation_NoDup; [symmetry; apply sort_by_perm|].
  apply NoDup_nodup.
Qed.

Lemma group_keys_in df k : In k (group_keys key df) <-> In k (map key df).
Proof. unfold group_keys. rewrite sort_by_in. apply nodup_In. Qed.

Lemma group_keys_sorted df : Sorted (fun a b => String.leb a b = true) (group_keys key df).
Proof. apply sort_by_sorted, String.leb_total. Qed.

Lemma filter_key_nil df k :
  filter (fun r => String.eqb (key r) k) df = [] <-> ~ In k (map key df).
Proof.
  induction df as [|r df IH]; simpl; [tauto|].
  destruct (String.eqb_spec (key r) k) as [E|N].
  - split; [discriminate|]. intros H. exfalso. apply H. now left.
  - rewrite IH. tauto.
Qed.

Lemma groupby_in df k rows :
  In (k, rows) (groupby key df) <->
  In k (map key df) /\ rows = filter (fun r => String.eqb (key r) k) df.
Proof.
  unfold groupby. rewrite in_map_iff. split.
  - intros (k' & [= -> <-] & I). split; [now apply group_keys_in|reflexivity].
  - intros (I & ->). exists k. split; [reflexivity|now apply group_keys_in].
Qed.

Lemma groupby_group_nonempty df k rows : In (k, rows) (groupby key df) -> rows <> [].
Proof.
  rewrite groupby_in. intros (I & ->) E. now apply filter_key_nil in E.
Qed.

End GroupBy.

End FrameFacts.

(** ** The aggregates as lists of items *)

Module AggFacts.
Import FrameFacts NumFacts.
Local Open Scope list_scope.

Lemma filter_map_comm {A B} (f : A -> B) (p : B -> bool) l :
  filter p (map f l) = map f (filter (fun a => p (f a)) l).
Proof.
  induction l as [|a l IH]; simpl; [reflexivity|].
  destruct (p (f a)); simpl; now rewrite IH.
Qed.

Lemma filter_filter {A} (p q : A -> bool) l :
  filter p (filter q l) = filter (fun a => q a && p a) l.
Proof.
  induction l as [|a l IH]; simpl; [reflexivity|].
  destruct (q a); simpl; [destruct (p a)|]; now rewrite IH.
Qed.

Lemma fold_left_ext {A B} (f g : A -> B -> A) l a :
  (forall a b, f a b = g a b) -> fold_left f l a = fold_left g l a.
Proof.
  intros E. revert a. induction l as [|b l IH]; intros a; simpl; [reflexivity|].
  now rewrite E, IH.
Qed.

Lemma flat_map_single {A B} (f : A -> B) l : flat_map (fun a => [f a]) l = map f l.
Proof. induction l; simpl; congruence. Qed.

(** The dictionary of monthly totals holds one item per group, in the
    groups' order. *)
Lemma calculate_monthly_totals_items dfp :
  calculate_monthly_totals dfp
  = map (fun g => (fst g, month_stats (snd g))) (groupby MonthName dfp).
Proof.
  unfold calculate_monthly_totals.
  rewrite (fold_dict_set fst (fun g => Some (month_stats (snd g)))).
  - simpl. apply flat_map_single.
  - simpl. rewrite groupby_keys. apply group_keys_nodup.
Qed.

Lemma create_spending_report_items dfp :
  create_spending_report dfp
  = flat_map (fun g => match report_entry g with
                       | Some v => [(fst g, v)]
                       | None => []
                       end) (groupby MonthName dfp).
Proof.
  unfold create_spending_report.
  rewrite (fold_left_ext _ (fun d g => match report_entry g with
                                       | Some v => dict_set (fst g) v d
                                       | None => d
                                       end)).
  - rewrite (fold_dict_set fst report_entry); [reflexivity|].
    simpl. rewrite groupby_keys. apply group_keys_nodup.
  - intros d g. unfold report_entry. now destruct (_ =? _)%nat.
Qed.

Lemma dict_get_kept {V} (h : string -> option V) (ks : list string) k :
  NoDup ks ->
  dict_get k (flat_map (fun k' => match h k' with
                                  | Some v => [(k', v)]
                                  | None => []
                                  end) ks)
  = if in_dec string_dec k ks then h k else None.
Proof.
  induction ks as [|k' ks IH]; intros ND; simpl; [reflexivity|].
  inversion ND as [|? ? N ND']; subst. specialize (IH ND').
  destruct (string_dec k' k) as [->|NE].
  - destruct (h k) as [v|]; simpl.
    + now rewrite String.eqb_refl.
    + rewrite IH. destruct (in_dec string_dec k ks); [contradiction|reflexivity].
  - assert (dict_get k (match h k' with Some v => [(k', v)] | None => [] end
                        ++ flat_map (fun k' => match h k' with
                                               | Some v => [(k', v)]
                                               | None => []
                                               end) ks)
            = dict_get k (flat_map (fun k' => match h k' with
                                              | Some v => [(k', v)]
                                              | None => []
                                              end) ks)) as ->.
    { destruct (h k'); simpl; [|reflexivity].
      destruct (String.eqb_spec k' k); [contradiction|reflexivity]. }
    rewrite IH. destruct (in_dec string_dec k ks); reflexivity.
Qed.

(** Looking a key up in a dictionary filled from [groupby]: the key's group
    is the rows that carry it, and a key no row carries is absent. *)
Lemma dict_get_groups {A V} (key : A -> string) (h : string * list A -> option V) df k :
  dict_get k (flat_map (fun g => match h g with
                                 | Some v => [(fst g, v)]
                                 | None => []
                                 end) (groupby key df))
  = match filter (fun r => String.eqb (key r) k) df with
    | [] => None
    | rows => h (k, rows)
    end.
Proof.
  unfold groupby. rewrite flat_map_concat_map, map_map, <- flat_map_concat_map.
  cbn [fst].
  rewrite (dict_get_kept (fun k' => h (k', filter (fun r => String.eqb (key r) k') df)))
    by apply group_keys_nodup.
  destruct (in_dec string_dec k (group_keys key df)) as [I|N].
  - apply group_keys_in in I.
    destruct (filter _ df) eqn:E; [|reflexivity].
    now apply filter_key_nil in E.
  - rewrite group_keys_in in N. apply filter_key_nil in N. now rewrite N.
Qed.

Lemma dict_get_totals dfp m :
  dict_get m (calculate_monthly_totals dfp)
  = match filter (fun r => String.eqb (MonthName r) m) dfp with
    | [] => None
    | rows => Some (month_stats rows)
    end.
Proof.
  rewrite calculate_monthly_totals_items, <- flat_map_single.
  apply (dict_get_groups MonthName (fun g => Some (month_stats (snd g)))).
Qed.

Lemma dict_get_report dfp m :
  dict_get m (create_spending_report dfp)
  = match filter (fun r => Qlt_bool (amount r) 0)
                 (filter (fun r => String.eqb (MonthName r) m) dfp) with
    | [] => None
    | spending_df => Some (merchant_table spending_df)
    end.
Proof.
  rewrite create_spending_report_items, (dict_get_groups MonthName report_entry).
  destruct (filter (fun r => String.eqb (MonthName r) m) dfp) eqn:E; [reflexivity|].
  unfold report_entry. cbn [snd]. now destruct (filter _ (c :: l)).
Qed.

Lemma month_rows_clean_data df m :
  filter (fun r => String.eqb (MonthName r) m) (clean_data df)
  = map add_columns (posted_in_month m df).
Proof.
  unfold clean_data, posted_in_month.
  rewrite filter_map_comm, filter_map_comm, filter_filter. reflexivity.
Qed.

Lemma month_stats_add_columns rows :
  month_stats (map add_columns rows) = spec_month_stats rows.
Proof.
  unfold month_stats, spec_month_stats.
  rewrite !filter_map_comm, !map_map, length_map. reflexivity.
Qed.

Lemma clean_data_app df1 df2 : clean_data (df1 ++ df2) = clean_data df1 ++ clean_data df2.
Proof. unfold clean_data. now rewrite map_app, filter_app. Qed.

Lemma clean_data_not_posted r df :
  Status r <> "Posted" -> clean_data (r :: df) = clean_data df.
Proof.
  intros N. unfold clean_data. simpl.
  destruct (String.eqb_spec (Status r) "Posted"); [contradiction|reflexivity].
Qed.

End AggFacts.

(** ** Results on month names *)

Module DateFacts.

Lemma valid_date_four_digits d : valid_date d -> four_digits (year d).
Proof.
  intros [_ H]. unfold four_digits.
  apply Nat.le_lt_trans with (2262 / 1000)%nat.
  - now apply Nat.Div0.div_le_mono.
  - vm_compute. lia.
Qed.

Lemma digit_value_digit n : digit_value (digit n) = Some (n mod 10)%nat.
Proof.
  unfold digit. pose proof (Nat.mod_upper_bound n 10 ltac:(lia)) as B.
  set (k := (n mod 10)%nat) in *. clearbody k.
  do 10 (destruct k as [|k]; [reflexivity|]). lia.
Qed.

Lemma year_digits y :
  four_digits y ->
  (1000 * ((y / 1000) mod 10) + 100 * ((y / 100) mod 10)
   + 10 * ((y / 10) mod 10) + y mod 10 = y)%nat.
Proof.
  unfold four_digits. intros H.
  pose proof (Nat.div_mod_eq y 10). pose proof (Nat.div_mod_eq (y / 10) 10).
  pose proof (Nat.div_mod_eq (y / 100) 10).
  rewrite (Nat.Div0.div_div y 10 10) in *.
  rewrite (Nat.Div0.div_div y 100 10) in *.
  change (10 * 10)%nat with 100%nat in *. change (100 * 10)%nat with 1000%nat in *.
  rewrite (Nat.mod_small (y / 1000) 10) by assumption.
  lia.
Qed.

Lemma parse_Y_fmt_Y y : four_digits y -> parse_Y (fmt_Y y) = Some y.
Proof.
  intros H. unfold parse_Y, fmt_Y. rewrite !digit_value_digit. f_equal.
  now apply year_digits.
Qed.

Lemma to_datetime_name m a b c d :
  to_datetime_B_Y (month_name m ++ " " ++ String a (String b (String c (String d ""))))
  = match parse_Y (String a (String b (String c (String d "")))) with
    | Some y => Return (y, m)
    | None => Raise ValueError
    end.
Proof.
  unfold to_datetime_B_Y, all_months, first_some, parse_B_Y_with, strip_prefix.
  destruct m; cbn -[parse_Y]; destruct (parse_Y _); reflexivity.
Qed.

(** A month name the program writes is read back as its year and month. *)
Lemma to_datetime_strftime y m :
  four_digits y -> to_datetime_B_Y (strftime_B_Y y m) = Return (y, m).
Proof.
  intros H. unfold strftime_B_Y, fmt_Y.
  rewrite to_datetime_name. fold (fmt_Y y). now rewrite parse_Y_fmt_Y.
Qed.

Lemma parse_Y_m_shape m a b c d :
  parse_Y_m (String a (String b (String c (String d ""))) ++ "-" ++ fmt_m m)
  = option_map (fun y => (y, m)) (parse_Y (String a (String b (String c (String d ""))))).
Proof.
  unfold parse_Y_m.
  destruct m; cbn -[parse_Y]; destruct (parse_Y _); reflexivity.
Qed.

Lemma parse_Y_m_strftime y m :
  four_digits y -> parse_Y_m (strftime_Y_m y m) = Some (y, m).
Proof.
  intros H. unfold strftime_Y_m, fmt_Y.
  rewrite parse_Y_m_shape. fold (fmt_Y y). now rewrite parse_Y_fmt_Y.
Qed.

Lemma strftime_Y_m_inj y1 m1 y2 m2 :
  four_digits y1 -> four_digits y2 ->
  strftime_Y_m y1 m1 = strftime_Y_m y2 m2 -> (y1, m1) = (y2, m2).
Proof.
  intros H1 H2 E. apply (f_equal parse_Y_m) in E.
  rewrite !parse_Y_m_strftime in E by assumption. congruence.
Qed.

Lemma ascii_compare_digit p q :
  Ascii.compare (digit p) (digit q) = (p mod 10 ?= q mod 10)%nat.
Proof.
  unfold digit.
  pose proof (Nat.mod_upper_bound p 10 ltac:(lia)) as Bp.
  pose proof (Nat.mod_upper_bound q 10 ltac:(lia)) as Bq.
  set (a := (p mod 10)%nat) in *. set (b := (q mod 10)%nat) in *. clearbody a b.
  do 10 (destruct a as [|a]; [do 10 (destruct b as [|b]; [reflexivity|]); lia|]). lia.
Qed.

Lemma compare_fmt_Y y1 y2 s1 s2 :
  four_digits y1 -> four_digits y2 ->
  String.compare (fmt_Y y1 ++ s1) (fmt_Y y2 ++ s2)
  = match (y1 ?= y2)%nat with
    | Eq => String.compare s1 s2
    | c => c
    end.
Proof.
  intros H1 H2. unfold fmt_Y. cbn [append String.compare].
  rewrite !ascii_compare_digit.
  pose proof (year_digits y1 H1) as E1. pose proof (year_digits y2 H2) as E2.
  pose proof (Nat.mod_upper_bound (y1 / 100) 10 ltac:(lia)).
  pose proof (Nat.mod_upper_bound (y1 / 10) 10 ltac:(lia)).
  pose proof (Nat.mod_upper_bound y1 10 ltac:(lia)).
  pose proof (Nat.mod_upper_bound (y2 / 100) 10 ltac:(lia)).
  pose proof (Nat.mod_upper_bound (y2 / 10) 10 ltac:(lia)).
  pose proof (Nat.mod_upper_bound y2 10 ltac:(lia)).
  destruct (Nat.compare_spec ((y1 / 1000) mod 10) ((y2 / 1000) mod 10));
    [destruct (Nat.compare_spec ((y1 / 100) mod 10) ((y2 / 100) mod 10));
     [destruct (Nat.compare_spec ((y1 / 10) mod 10) ((y2 / 10) mod 10));
      [destruct (Nat.compare_spec (y1 mod 10) (y2 mod 10))| |]| |]| |];
    destruct (Nat.compare_spec y1 y2); try reflexivity; lia.
Qed.

(** On the month cells the export writes, the order of strings is the order
    of the calendar. *)
Lemma leb_strftime_Y_m y1 m1 y2 m2 :
  four_digits y1 -> four_digits y2 ->
  String.leb (strftime_Y_m y1 m1) (strftime_Y_m y2 m2) = ym_leb (y1, m1) (y2, m2).
Proof.
  intros H1 H2. unfold String.leb, strftime_Y_m, ym_leb. cbn [fst snd].
  rewrite compare_fmt_Y by assumption.
  destruct (Nat.compare_spec y1 y2) as [->|L|L].
  - rewrite Nat.ltb_irrefl, Nat.eqb_refl. destruct m1, m2; reflexivity.
  - apply Nat.ltb_lt in L. now rewrite L.
  - assert ((y1 <? y2)%nat = false) as -> by (apply Nat.ltb_ge; lia).
    assert ((y1 =? y2)%nat = false) as -> by (apply Nat.eqb_neq; lia).
    reflexivity.
Qed.

End DateFacts.

(** ** [clean_merchant_name]: results *)

Section CleanMerchant.
Import PyStr PyStrFacts.

Lemma clean_merchant_name_spec desc : clean_merchant_name desc = spec_clean_merchant desc.
Proof.
  unfold clean_merchant_name, spec_clean_merchant, spec_rules, first_match.
  set (d := strip desc).
  repeat match goal with
         | |- context [if ?b then _ else _] =>
             match b with
             | contains _ d => destruct b
             | (contains _ d && contains _ d)%bool => destruct b
             end; try reflexivity
         end.
  unfold spec_default.
  apply (cut_then_strip (split_head "***" d)).
  apply no_lead_split_head, no_lead_strip.
Qed.

Lemma clean_merchant_default desc :
  matches_no_rule (strip desc) = true ->
  clean_merchant_name desc = spec_default (strip desc).
Proof.
  intros H. rewrite clean_merchant_name_spec. unfold spec_clean_merchant.
  revert H. unfold matches_no_rule, spec_rules.
  cbn [forallb first_match fst snd].
  set (d := strip desc).
  repeat match goal with
         | |- context [negb ?b] => destruct b; cbn [negb andb]; try discriminate
         end.
  reflexivity.
Qed.

Lemma strip_nonempty c s : is_space c = false -> strip (String c s) <> "".
Proof.
  intros C. unfold strip. simpl. rewrite C. simpl.
  destruct (rstrip s); [rewrite C|]; discriminate.
Qed.

Lemma spec_default_empty d :
  no_lead d = true ->
  (spec_default d = "" <-> d = "" \/ String.prefix "***" d = true).
Proof.
  intros Hd. unfold spec_default. split.
  - destruct d as [|c d]; [now left|]. intros E.
    destruct (String.prefix "***" (String c d)) eqn:P; [now right|exfalso].
    revert E. unfold split_head; fold split_head. rewrite P.
    unfold slice_to. cbn [String.substring].
    apply strip_nonempty. simpl in Hd. now apply negb_true_iff in Hd.
  - intros [-> | P]; [reflexivity|].
    destruct d as [|c d]; [reflexivity|].
    unfold split_head; fold split_head. rewrite P. reflexivity.
Qed.

End CleanMerchant.

(** C3.  [clean_merchant_name] is the ordered rule list of the
    specification applied to the trimmed description, the first matching
    rule giving the name; the tests are substring tests that distinguish
    letter case.  A description that contains "IRS  TREAS" (two spaces) and
    "TAX REF", and none of the five patterns listed before them, is named
    "Federal Tax Refund"; "IRS TREAS 310 TAX REF" (one space) matches no rule
    and is named by the default rule. *)
Theorem clean_merchant_first_match (desc : string) :
  clean_merchant_name desc
    = first_match spec_rules spec_default (PyStr.strip desc)
  /\ (forallb (fun p => negb (PyStr.contains p (PyStr.strip desc)))
              ["UBER EATS"; "PAYPAL"; "CAREERBUILDER"; "INTEREST PAID";
               "Georgia Departme"] = true ->
      PyStr.contains "IRS  TREAS" (PyStr.strip desc) = true ->
      PyStr.contains "TAX REF" (PyStr.strip desc) = true ->
      clean_merchant_name desc = "Federal Tax Refund")
  /\ clean_merchant_name "IRS  TREAS 310 TAX REF" = "Federal Tax Refund"
  /\ (matches_no_rule "IRS TREAS 310 TAX REF" = true
      /\ clean_merchant_name "IRS TREAS 310 TAX REF" = spec_default "IRS TREAS 310 TAX REF"
      /\ clean_merchant_name "IRS TREAS 310 TAX REF" = "IRS TREAS 310 TAX REF")
  /\ clean_merchant_name "uber eats ***1" = "uber eats".
Proof.
  split; [apply clean_merchant_name_spec|].
  split; [|repeat split; reflexivity].
  intros Hnone H1 H2. rewrite clean_merchant_name_spec.
  unfold spec_clean_merchant, spec_rules. cbn [first_match].
  revert Hnone. cbn [forallb].
  repeat match goal with
         | |- context [negb ?b] => destruct b; cbn [negb andb]; try discriminate
         end.
  intros _. now rewrite H1, H2.
Qed.

Lemma clean_merchant_first_match_witness :
  clean_merchant_name "  ACH IRS  TREAS 310 TAX REF ***0042 " = "Federal Tax Refund".
Proof.
  apply (proj1 (proj2 (clean_merchant_first_match
                         "  ACH IRS  TREAS 310 TAX REF ***0042 "))); reflexivity.
Defined.

(** C4, as the program has it.  For a description that matches no named
    pattern the name is the part of the trimmed description before the first
    "***" (all of it without one), cut to 50 characters and trimmed again.
    The name is empty exactly when the trimmed description is empty or
    begins with "***"; a description of white space only is named by the
    empty string. *)
Theorem clean_merchant_default_rule (desc : string) :
  matches_no_rule (PyStr.strip desc) = true ->
  clean_merchant_name desc
    = PyStr.strip (PyStr.slice_to 50 (PyStr.split_head "***" (PyStr.strip desc)))
  /\ (clean_merchant_name desc = ""
      <-> PyStr.strip desc = "" \/ String.prefix "***" (PyStr.strip desc) = true)
  /\ (PyStr.all_space desc = true -> clean_merchant_name desc = "").
Proof.
  intros H. pose proof (clean_merchant_default desc H) as E.
  split; [exact E|]. split.
  - rewrite E. apply spec_default_empty, PyStrFacts.no_lead_strip.
  - intros W. rewrite E, (PyStrFacts.strip_all_space desc W). reflexivity.
Qed.

Lemma clean_merchant_default_rule_witness :
  clean_merchant_name "  CHEVRON 0301234 ***********F3A3"
    = PyStr.strip (PyStr.slice_to 50 (PyStr.split_head "***"
        (PyStr.strip "  CHEVRON 0301234 ***********F3A3"))).
Proof.
  apply (proj1 (clean_merchant_default_rule "  CHEVRON 0301234 ***********F3A3"
                  eq_refl)).
Defined.

(** C4, as the specification has it, fails: a description that is not
    empty, matches no named pattern and begins with "***" is named by the
    empty string. *)
Lemma clean_merchant_nonempty_counterexample :
  "***1234" <> ""
  /\ PyStr.all_space "***1234" = false
  /\ matches_no_rule (PyStr.strip "***1234") = true
  /\ clean_merchant_name "***1234" = "".
Proof. repeat split; try reflexivity. discriminate. Qed.

(** ** The aggregates: results *)

Section Aggregates.
Import FrameFacts NumFacts AggFacts.
Local Open Scope list_scope.

(** C6.  The transaction type of a row is "Deposit" exactly when its amount
    is above zero; an amount of zero or below gives "Withdrawal". *)
Theorem transaction_type_sign (r : Row) :
  (TransactionType (add_columns r) = "Deposit" <-> 0 < Amount r)
  /\ (TransactionType (add_columns r) = "Withdrawal" <-> Amount r <= 0)
  /\ TransactionType (add_columns (mk_row 2024 March 1 "" 0 "Posted")) = "Withdrawal".
Proof.
  cbn [add_columns TransactionType].
  destruct (Qlt_bool 0 (Amount r)) eqn:E.
  - apply Qlt_bool_iff in E. repeat split; try easy.
    intros L. exfalso. exact (Qlt_not_le _ _ E L).
  - assert (Amount r <= 0) as L.
    { apply Qnot_lt_le. intros H. apply Qlt_bool_iff in H. congruence. }
    repeat split; try easy.
    intros H. exfalso. exact (Qlt_not_le _ _ H L).
Qed.

(** C5.  For every month name [m], the monthly totals of the program hold
    for [m] the figures of the posted rows of that month: deposits the sum
    of the amounts above zero, spending the absolute value of the sum of the
    amounts below zero, net their difference, and the count the number of
    those rows; a month without posted rows has no entry.  A row whose
    status is not "Posted" changes none of the totals. *)
Theorem monthly_totals_posted_only (df : list Row) (m : string) :
  dict_get m (calculate_monthly_totals (clean_data df))
    = match posted_in_month m df with
      | [] => None
      | rows =>
          let dep := qsum (map Amount (filter (fun r => Qlt_bool 0 (Amount r)) rows)) in
          let sp := Qabs (qsum (map Amount (filter (fun r => Qlt_bool (Amount r) 0) rows))) in
          Some {| deposits := dep; spending := sp; net := dep - sp;
                  transaction_count := List.length rows |}
      end
  /\ (forall df1 df2 pending,
        df = df1 ++ pending :: df2 ->
        Status pending <> "Posted" ->
        calculate_monthly_totals (clean_data df)
        = calculate_monthly_totals (clean_data (df1 ++ df2))).
Proof.
  split.
  - rewrite dict_get_totals, month_rows_clean_data.
    destruct (posted_in_month m df) as [|r rows] eqn:E; [reflexivity|].
    cbn [map]. f_equal. exact (month_stats_add_columns (r :: rows)).
  - intros df1 df2 pending -> N.
    now rewrite !clean_data_app, clean_data_not_posted.
Qed.

Lemma monthly_totals_posted_only_witness :
  calculate_monthly_totals
    (clean_data (march_2024 ++ [mk_row 2024 March 9 "RENT" (-500) "Pending"]))
  = calculate_monthly_totals (clean_data (march_2024 ++ [])).
Proof.
  apply (proj2 (monthly_totals_posted_only
                  (march_2024 ++ [mk_row 2024 March 9 "RENT" (-500) "Pending"])
                  "March 2024")
               march_2024 [] (mk_row 2024 March 9 "RENT" (-500) "Pending")).
  - reflexivity.
  - discriminate.
Defined.

Lemma merchant_table_perm spending_df :
  Permutation (merchant_table spending_df)
              (map (spec_merchant_row spending_df)
                   (nodup string_dec (map CleanMerchant spending_df))).
Proof.
  unfold merchant_table. rewrite sort_by_perm.
  unfold groupby. rewrite !map_map. cbn [fst snd merchant total count].
  rewrite (map_ext _ (spec_merchant_row spending_df)).
  - apply Permutation_map, sort_by_perm.
  - intros k. unfold spec_merchant_row. now rewrite round2_abs.
Qed.

Lemma StronglySorted_impl {A} (R R' : A -> A -> Prop) l :
  (forall a b, R a b -> R' a b) -> StronglySorted R l -> StronglySorted R' l.
Proof.
  intros H. induction 1 as [|a l S IH F]; constructor; [assumption|].
  eapply Forall_impl; [|exact F]. apply H.
Qed.

Lemma merchant_table_sorted spending_df :
  StronglySorted (fun a b => total b <= total a) (merchant_table spending_df).
Proof.
  unfold merchant_table.
  apply (StronglySorted_impl (fun a b => Qle_bool (total b) (total a) = true)).
  - intros a b. apply Qle_bool_iff.
  - apply Sorted_StronglySorted.
    + intros a b c H1 H2. apply Qle_bool_iff in H1, H2. apply Qle_bool_iff.
      eapply Qle_trans; eassumption.
    + apply sort_by_sorted. intros a b.
      destruct (Qlt_le_dec (total a) (total b)) as [L|L].
      * right. apply Qle_bool_iff. now apply Qlt_le_weak.
      * left. now apply Qle_bool_iff.
Qed.

Lemma round2_rounded x : rounded_to_cents x (round2 x).
Proof.
  split; [|apply round2_error].
  exists (round_half_even (x * inject_Z (10 ^ Z.of_nat 2))). reflexivity.
Qed.

Lemma merchant_table_merchants spending_df :
  Permutation (map merchant (merchant_table spending_df))
              (nodup string_dec (map CleanMerchant spending_df)).
Proof.
  rewrite (Permutation_map merchant (merchant_table_perm spending_df)), map_map.
  cbn [merchant spec_merchant_row]. now rewrite map_id.
Qed.

Lemma merchant_table_row spending_df r :
  In r (merchant_table spending_df) ->
  count r = List.length (filter (fun c => String.eqb (CleanMerchant c) (merchant r))
                                spending_df)
  /\ rounded_to_cents
       (Qabs (qsum (map amount
                        (filter (fun c => String.eqb (CleanMerchant c) (merchant r))
                                spending_df))))
       (total r).
Proof.
  intros I.
  apply (Permutation_in _ (merchant_table_perm spending_df)) in I.
  apply in_map_iff in I as (k & <- & _). cbn [spec_merchant_row merchant count total].
  split; [reflexivity|apply round2_rounded].
Qed.

(** C7.  For every month name [m]: with the month's rows restricted to the
    amounts below zero, the spending report holds for [m] one row per
    distinct clean merchant; the row's count is the number of the
    merchant's rows, and its total is the absolute value of the sum of the
    merchant's amounts rounded to two decimals (a whole number of cents, at
    most half a cent from that value); the rows are in descending order of
    total.  A month with no amount below zero has no entry in the report;
    every month with a posted row has an entry in the monthly totals, its
    spending 0 when it has no amount below zero. *)
Theorem spending_report_by_merchant (dfp : list CleanRow) (m : string) :
  let month_df := filter (fun r => String.eqb (MonthName r) m) dfp in
  let spending_df := filter (fun r => Qlt_bool (amount r) 0) month_df in
  match dict_get m (create_spending_report dfp) with
  | Some table =>
      spending_df <> []
      /\ Permutation (map merchant table)
                     (nodup string_dec (map CleanMerchant spending_df))
      /\ Forall (fun r =>
                   count r
                   = List.length
                       (filter (fun c => String.eqb (CleanMerchant c) (merchant r))
                               spending_df)
                   /\ rounded_to_cents
                        (Qabs (qsum (map amount
                                         (filter (fun c => String.eqb (CleanMerchant c)
                                                                      (merchant r))
                                                 spending_df))))
                        (total r))
                table
      /\ StronglySorted (fun a b => total b <= total a) table
  | None => spending_df = []
  end
  /\ (month_df <> [] ->
      exists st, dict_get m (calculate_monthly_totals dfp) = Some st
                 /\ (spending_df = [] -> spending st = 0)).
Proof.
  cbv zeta. split.
  - rewrite dict_get_report.
    destruct (filter (fun r => Qlt_bool (amount r) 0) _) as [|r rows]; [reflexivity|].
    split; [discriminate|]. split; [apply merchant_table_merchants|]. split.
    + apply Forall_forall. intros x I. now apply merchant_table_row.
    + apply merchant_table_sorted.
  - intros NE. rewrite dict_get_totals.
    destruct (filter (fun r => String.eqb (MonthName r) m) dfp) as [|r rows];
      [congruence|].
    eexists. split; [reflexivity|].
    intros Z. unfold month_stats. cbn [spending]. rewrite Z. reflexivity.
Qed.

Lemma spending_report_by_merchant_witness :
  (exists table,
      dict_get "March 2024"
        (create_spending_report
           (clean_data (mk_row 2024 April 5 "PAYCHECK" 1500 "Posted" :: march_2024)))
      = Some table
      /\ Forall (fun r => exists k : Z, total r == k # 100) table
      /\ StronglySorted (fun a b => total b <= total a) table)
  /\ (exists st,
         dict_get "April 2024"
           (calculate_monthly_totals
              (clean_data (mk_row 2024 April 5 "PAYCHECK" 1500 "Posted" :: march_2024)))
         = Some st
         /\ spending st = 0).
Proof.
  split.
  - remember (clean_data (mk_row 2024 April 5 "PAYCHECK" 1500 "Posted" :: march_2024))
      as dfp eqn:D.
    pose proof (proj1 (spending_report_by_merchant dfp "March 2024")) as H.
    assert (dict_get "March 2024" (create_spending_report dfp)
            = Some [{| merchant := "Uber Eats"; total := 4215 # 100; count := 1 |};
                    {| merchant := "NETFLIX.COM"; total := 999 # 100; count := 1 |}]) as E
      by (subst dfp; reflexivity).
    cbv zeta beta in H. rewrite E in H. destruct H as (_ & _ & F & S).
    eexists. split; [exact E|]. split; [|exact S].
    eapply Forall_impl; [|exact F]. intros r [_ [K _]]. exact K.
  - destruct (proj2 (spending_report_by_merchant
                       (clean_data (mk_row 2024 April 5 "PAYCHECK" 1500 "Posted"
                                      :: march_2024))
                       "April 2024")) as (st & H & Z).
    + discriminate.
    + exists st. split; [exact H|]. apply Z. reflexivity.
Defined.

(** *** Sums over groups *)

Lemma qsum_map_ext {A} (f g : A -> Q) l :
  (forall x, In x l -> f x == g x) -> qsum (map f l) == qsum (map g l).
Proof.
  induction l as [|a l IH]; intros H; simpl; [reflexivity|].
  rewrite (H a) by now left. rewrite IH; [reflexivity|].
  intros x I. apply H. now right.
Qed.

Lemma qsum_map_plus {A} (f g : A -> Q) l :
  qsum (map (fun x => f x + g x) l) == qsum (map f l) + qsum (map g l).
Proof. induction l as [|a l IH]; simpl; [ring|rewrite IH; ring]. Qed.

Lemma qsum_map_zero {A} (l : list A) : qsum (map (fun _ => 0) l) == 0.
Proof. induction l as [|a l IH]; simpl; [reflexivity|rewrite IH; ring]. Qed.

(** Among distinct keys, exactly one equals a key of the list. *)
Lemma qsum_indicator (k0 : string) (v : Q) ks :
  NoDup ks -> In k0 ks ->
  qsum (map (fun k => if String.eqb k0 k then v else 0) ks) == v.
Proof.
  induction ks as [|k ks IH]; intros ND I; [destruct I|].
  inversion ND as [|? ? N ND']; subst. simpl.
  destruct (String.eqb_spec k0 k) as [->|NE].
  - rewrite (qsum_map_ext _ (fun _ => 0)).
    + rewrite qsum_map_zero. ring.
    + intros x Ix. destruct (String.eqb_spec k x) as [->|_]; [contradiction|reflexivity].
  - destruct I as [E|I]; [congruence|]. rewrite IH by assumption. ring.
Qed.

(** Grouping splits a sum: the groups' sums add up to the sum of all
    rows. *)
Lemma qsum_groupby {A} (key : A -> string) (val : A -> Q) df :
  qsum (map (fun g => qsum (map val (snd g))) (groupby key df)) == qsum (map val df).
Proof.
  unfold groupby. rewrite map_map. cbn [snd].
  pose proof (group_keys_nodup key df) as ND.
  assert (forall r, In r df -> In (key r) (group_keys key df)) as Hin.
  { intros r I. apply group_keys_in. now apply in_map. }
  revert ND Hin. generalize (group_keys key df) as ks. intros ks ND.
  induction df as [|r df IH]; intros Hin; simpl.
  - apply qsum_map_zero.
  - rewrite (qsum_map_ext _ (fun k => (if String.eqb (key r) k then val r else 0)
                                      + qsum (map val (filter (fun r' => String.eqb (key r') k) df)))).
    + rewrite qsum_map_plus, qsum_indicator, IH; try reflexivity; try assumption.
      * intros r' I. apply Hin. now right.
      * apply Hin. now left.
    + intros k _. destruct (String.eqb (key r) k); simpl; ring.
Qed.

Lemma qsum_map_opp {A} (f : A -> Q) l : qsum (map (fun x => - f x) l) == - qsum (map f l).
Proof. induction l as [|a l IH]; simpl; [ring|rewrite IH; ring]. Qed.

(** Terms that differ by at most [e] each give sums that differ by at most
    [e] per term. *)
Lemma qsum_abs_bound {A} (f g : A -> Q) (e : Q) l :
  (forall x, In x l -> Qabs (f x - g x) <= e) ->
  Qabs (qsum (map f l) - qsum (map g l)) <= inject_Z (Z.of_nat (List.length l)) * e.
Proof.
  induction l as [|a l IH]; intros H.
  - unfold Qle. simpl. lia.
  - cbn [map qsum List.length]. rewrite Nat2Z.inj_succ, <- Z.add_1_r, inject_Z_plus.
    setoid_replace (f a + qsum (map f l) - (g a + qsum (map g l)))
      with ((f a - g a) + (qsum (map f l) - qsum (map g l))) by ring.
    eapply Qle_trans; [apply Qabs_triangle|].
    setoid_replace ((inject_Z (Z.of_nat (List.length l)) + inject_Z 1) * e)
      with (e + inject_Z (Z.of_nat (List.length l)) * e) by ring.
    apply Qplus_le_compat.
    + apply H. now left.
    + apply IH. intros x I. apply H. now right.
Qed.

Lemma amounts_below_zero (rows : list CleanRow) (p : CleanRow -> bool) :
  Forall (fun x => x <= 0)
         (map amount (filter p (filter (fun r => Qlt_bool (amount r) 0) rows))).
Proof.
  apply Forall_forall. intros x I. apply in_map_iff in I as (r & <- & I).
  apply filter_In in I as (I & _). apply filter_In in I as (_ & L).
  apply Qlt_bool_iff in L. now apply Qlt_le_weak.
Qed.

(** *** Merchant totals against the month's spending *)

Lemma merchant_table_totals spending_df :
  Permutation (map total (merchant_table spending_df))
              (map (fun g => Qabs (round2 (group_sum g)))
                   (groupby CleanMerchant spending_df)).
Proof.
  unfold merchant_table. rewrite sort_by_perm, !map_map. reflexivity.
Qed.

Lemma merchant_table_length spending_df :
  List.length (merchant_table spending_df)
  = List.length (groupby CleanMerchant spending_df).
Proof.
  unfold merchant_table.
  rewrite (Permutation_length (sort_by_perm _ _)), !length_map. reflexivity.
Qed.

Lemma group_sum_bound b spending_df g :
  b <= 0 ->
  Forall (fun r => amount r <= b) spending_df ->
  In g (groupby CleanMerchant spending_df) ->
  group_sum g <= b.
Proof.
  intros Hb H I. destruct g as [k rows]. unfold group_sum. cbn [snd].
  pose proof (groupby_group_nonempty _ _ _ _ I) as NE.
  apply groupby_in in I as (_ & ->).
  apply qsum_le_bound; [assumption| |].
  - intros E. apply map_eq_nil in E. contradiction.
  - apply Forall_forall. intros x Ix. apply in_map_iff in Ix as (r & <- & Ir).
    apply filter_In in Ir as (Ir & _).
    rewrite Forall_forall in H. now apply H.
Qed.

(** The merchant totals of a frame of amounts at or below zero add up to
    the absolute value of the frame's sum, to half a cent per merchant. *)
Lemma merchant_totals_error spending_df :
  Forall (fun r => amount r <= 0) spending_df ->
  Qabs (qsum (map total (merchant_table spending_df))
        - Qabs (qsum (map amount spending_df)))
  <= inject_Z (Z.of_nat (List.length (merchant_table spending_df))) * (1 # 200).
Proof.
  intros H.
  assert (forall g, In g (groupby CleanMerchant spending_df) -> group_sum g <= 0) as Hg.
  { intros g. apply group_sum_bound; [apply Qle_refl|assumption]. }
  rewrite merchant_table_length, (merchant_table_totals spending_df).
  rewrite <- (qsum_groupby CleanMerchant amount spending_df).
  fold group_sum.
  rewrite (Qabs_neg (qsum (map group_sum _))).
  2:{ apply qsum_nonpos, Forall_forall. intros x I.
      apply in_map_iff in I as (g & <- & I). now apply Hg. }
  rewrite <- qsum_map_opp.
  rewrite (qsum_map_ext (fun g => Qabs (round2 (group_sum g)))
                        (fun g => - round2 (group_sum g))).
  2:{ intros g I. apply Qabs_neg, round2_nonpos. now apply Hg. }
  apply qsum_abs_bound. intros g _.
  setoid_replace (- round2 (group_sum g) - - group_sum g)
    with (- (round2 (group_sum g) - group_sum g)) by ring.
  rewrite Qabs_opp. apply round2_error.
Qed.

Lemma spending_rows_nonpos (rows : list CleanRow) :
  Forall (fun r => amount r <= 0) (filter (fun r => Qlt_bool (amount r) 0) rows).
Proof.
  apply Forall_forall. intros r I. apply filter_In in I as (_ & L).
  apply Qlt_bool_iff in L. now apply Qlt_le_weak.
Qed.

(** C8.  For every month of the spending report, the totals of its
    merchants add up to the month's spending in the monthly totals, to one
    cent per merchant; a month of the monthly totals that the report does
    not hold has spending 0. *)
Theorem merchant_totals_sum (dfp : list CleanRow) (m : string) :
  match dict_get m (create_spending_report dfp) with
  | Some table =>
      exists st,
        dict_get m (calculate_monthly_totals dfp) = Some st
        /\ Qabs (qsum (map total table) - spending st)
           <= inject_Z (Z.of_nat (List.length table)) * (1 # 100)
  | None =>
      forall st, dict_get m (calculate_monthly_totals dfp) = Some st -> spending st = 0
  end.
Proof.
  rewrite dict_get_report, dict_get_totals.
  destruct (filter (fun r => String.eqb (MonthName r) m) dfp) as [|r0 rows0] eqn:Em.
  - simpl. discriminate.
  - set (month_df := r0 :: rows0).
    destruct (filter (fun r => Qlt_bool (amount r) 0) month_df) as [|r rows] eqn:Es.
    + intros st [= <-]. unfold month_stats. cbn [spending]. now rewrite Es.
    + eexists. split; [reflexivity|].
      unfold month_stats. cbn [spending]. rewrite Es.
      eapply Qle_trans.
      * apply merchant_totals_error. rewrite <- Es. apply spending_rows_nonpos.
      * rewrite !(Qmult_comm (inject_Z _)).
        apply Qmult_le_compat_r; [easy|].
        change 0 with (inject_Z 0). rewrite <- Zle_Qle. lia.
Qed.

(** *** The denominator of the percentages *)

Lemma qsum_pos l : l <> [] -> Forall (fun x => 0 < x) l -> 0 < qsum l.
Proof.
  intros NE H. destruct H as [|x l Hx Hl]; [congruence|]. simpl.
  setoid_replace 0 with (0 + 0) by ring.
  apply Qplus_lt_le_compat; [assumption|].
  apply qsum_nonneg. eapply Forall_impl; [|exact Hl].
  intros a Ha. now apply Qlt_le_weak.
Qed.

Lemma round2_below x : x <= - (1 # 100) -> 0 < Qabs (round2 x).
Proof.
  intros H. pose proof (round2_error x) as E.
  apply Qabs_Qle_condition in E as [_ E].
  assert (round2 x <= - (1 # 200)) as L.
  { setoid_replace (round2 x) with ((round2 x - x) + x) by ring.
    setoid_replace (- (1 # 200)) with ((1 # 200) + - (1 # 100)) by reflexivity.
    now apply Qplus_le_compat. }
  rewrite Qabs_neg.
  - setoid_replace 0 with (- 0) by reflexivity. apply Qopp_lt_compat.
    eapply Qle_lt_trans; [exact L|reflexivity].
  - eapply Qle_trans; [exact L|easy].
Qed.

Lemma merchant_table_total_pos spending_df :
  spending_df <> [] ->
  Forall (fun r => amount r <= - (1 # 100)) spending_df ->
  0 < month_total_of (merchant_table spending_df).
Proof.
  intros NE H. unfold month_total_of. rewrite (merchant_table_totals spending_df).
  apply qsum_pos.
  - intros E. apply map_eq_nil in E. unfold groupby in E. apply map_eq_nil in E.
    apply sort_by_nil in E.
    destruct spending_df as [|r rows]; [congruence|].
    assert (In (CleanMerchant r) (nodup string_dec (map CleanMerchant (r :: rows)))) as I
      by (apply nodup_In; now left).
    rewrite E in I. destruct I.
  - apply Forall_forall. intros x I. apply in_map_iff in I as (g & <- & I).
    apply round2_below. eapply group_sum_bound; [easy|exact H|exact I].
Qed.

Lemma percentage_defined x t : 0 < t -> percentage x t = Some (x / t * 100).
Proof.
  intros H. unfold percentage, np_div.
  destruct (Qeq_bool t 0) eqn:E; [|reflexivity].
  apply Qeq_bool_iff in E. rewrite E in H. discriminate.
Qed.

(** C10, as the program has it.  When every amount below zero is at most
    -0.01 (as every amount in whole cents is), each month of the spending
    report has a denominator above zero, and the percentage of every amount
    over it is a number. *)
Theorem month_total_positive (dfp : list CleanRow) (m : string) (table : list MerchantRow) :
  (forall r, In r dfp -> amount r < 0 -> amount r <= - (1 # 100)) ->
  dict_get m (create_spending_report dfp) = Some table ->
  0 < month_total_of table
  /\ (forall x, percentage x (month_total_of table)
                = Some (x / month_total_of table * 100)).
Proof.
  intros Hc. rewrite dict_get_report.
  destruct (filter (fun r => Qlt_bool (amount r) 0) _) as [|r rows] eqn:Es; [discriminate|].
  intros [= <-].
  assert (0 < month_total_of (merchant_table (r :: rows))) as P.
  { apply merchant_table_total_pos; [discriminate|].
    rewrite <- Es. apply Forall_forall. intros x I.
    apply filter_In in I as (I & L). apply filter_In in I as (I & _).
    apply Qlt_bool_iff in L. now apply Hc. }
  split; [exact P|]. intros x. now apply percentage_defined.
Qed.

Lemma month_total_positive_witness :
  0 < month_total_of
        [{| merchant := "Uber Eats"; total := 4215 # 100; count := 1 |};
         {| merchant := "NETFLIX.COM"; total := 999 # 100; count := 1 |}].
Proof.
  refine (proj1 (month_total_positive (clean_data march_2024) "March 2024" _ _ _)).
  - intros r I H. vm_compute in I.
    destruct I as [<-|[<-|[<-|[]]]];
      first [ vm_compute in H; discriminate H | vm_compute; discriminate ].
  - reflexivity.
Defined.

(** C10, as stated, fails: a single amount of -0.004 gives a merchant total
    of 0 after rounding, a month total of 0, and a percentage that is not a
    number. *)
Lemma month_total_zero_counterexample :
  exists table,
    dict_get "March 2024"
      (create_spending_report
         (clean_data [mk_row 2024 March 1 "COFFEE" (- (4 # 1000)) "Posted"]))
    = Some table
    /\ month_total_of table == 0
    /\ ~ 0 < month_total_of table
    /\ map (fun r => percentage (total r) (month_total_of table)) table = [None].
Proof.
  eexists. split; [reflexivity|]. split; [reflexivity|]. split; [|reflexivity].
  vm_compute. discriminate.
Qed.

End Aggregates.

(** ** The exported summary: results *)

Section ExportSummary.
Import FrameFacts NumFacts AggFacts DateFacts.
Local Open Scope list_scope.

Lemma mapM_ok {A B} (f : A -> result B) (g : A -> B) l :
  (forall a, In a l -> f a = Return (g a)) -> mapM f l = Return (map g l).
Proof.
  induction l as [|a l IH]; intros H; simpl; [reflexivity|].
  rewrite (H a) by now left. simpl. rewrite IH; [reflexivity|].
  intros x I. apply H. now right.
Qed.

Lemma ym_of_key_strftime y m : four_digits y -> ym_of_key (strftime_B_Y y m) = (y, m).
Proof. intros H. unfold ym_of_key. now rewrite to_datetime_strftime. Qed.

Lemma month_key_parses k : month_key k -> to_datetime_B_Y k = Return (ym_of_key k).
Proof.
  intros (y & m & H & ->). now rewrite ym_of_key_strftime, to_datetime_strftime.
Qed.

(** Every key of the monthly totals is a month name of a row. *)
Lemma month_name_keys df k :
  Forall (fun r => valid_date (Date r)) df ->
  In k (map MonthName (clean_data df)) -> month_key k.
Proof.
  intros V I. apply in_map_iff in I as (c & <- & I).
  unfold clean_data in I. apply filter_In in I as (I & _).
  apply in_map_iff in I as (r & <- & I).
  rewrite Forall_forall in V.
  exists (year (Date r)), (month_of (Date r)). split; [|reflexivity].
  apply valid_date_four_digits. now apply V.
Qed.

Lemma totals_keys df k :
  Forall (fun r => valid_date (Date r)) df ->
  In k (dict_keys (calculate_monthly_totals (clean_data df))) -> month_key k.
Proof.
  intros V I. apply (month_name_keys df k V).
  rewrite calculate_monthly_totals_items in I. unfold dict_keys in I.
  rewrite map_map in I. cbn [fst] in I.
  change (map (fun x => fst x) ?l) with (map fst l) in I.
  rewrite groupby_keys in I. now apply group_keys_in in I.
Qed.

Lemma totals_keys_nodup dfp : NoDup (dict_keys (calculate_monthly_totals dfp)).
Proof.
  rewrite calculate_monthly_totals_items. unfold dict_keys. rewrite map_map. cbn [fst].
  change (map (fun x => fst x) ?l) with (map fst l).
  rewrite groupby_keys. apply group_keys_nodup.
Qed.

(** With keys that are month names, the first half of the export returns
    the items' rows, sorted by their month cell. *)
Lemma export_monthly_summary_rows (monthly_stats : dict Stats) :
  monthly_stats <> [] ->
  (forall k, In k (dict_keys monthly_stats) -> month_key k) ->
  export_monthly_summary monthly_stats
  = Return (sort_by (fun a b => String.leb (Summary.Month a) (Summary.Month b))
                    (map summary_row monthly_stats)).
Proof.
  intros NE K. unfold export_monthly_summary.
  rewrite (mapM_ok _ summary_row).
  - simpl. unfold sort_values.
    destruct monthly_stats; [congruence|reflexivity].
  - intros item I. rewrite month_key_parses; [reflexivity|].
    apply K. now apply in_map.
Qed.

Lemma dict_get_absent {V} k (d : dict V) : dict_get k d = None -> ~ In k (dict_keys d).
Proof.
  induction d as [|[k' v'] d IH]; simpl; [tauto|].
  destruct (String.eqb_spec k' k) as [->|NE]; [discriminate|].
  intros H [E|I]; [congruence|]. now apply IH.
Qed.

Lemma dict_get_perm {V} k (d d' : dict V) :
  NoDup (dict_keys d') -> Permutation d d' -> dict_get k d = dict_get k d'.
Proof.
  intros ND P.
  assert (NoDup (dict_keys d)) as ND0.
  { eapply Permutation_NoDup; [|exact ND]. apply Permutation_map. now symmetry. }
  destruct (dict_get k d') as [v|] eqn:E.
  - apply dict_get_nodup; [assumption|].
    apply dict_get_in in E. eapply Permutation_in; [symmetry; exact P|exact E].
  - apply dict_get_none. intros I. apply dict_get_absent in E. apply E.
    eapply Permutation_in; [|exact I]. now apply Permutation_map.
Qed.

(** Sorting a list whose elements satisfy [P], by an order that is total
    and transitive on [P]. *)
Lemma sort_by_strongly_sorted {A} (P : A -> Prop) (le : A -> A -> bool) l :
  (forall a b, P a -> P b -> le a b = true \/ le b a = true) ->
  (forall a b c, P a -> P b -> P c -> le a b = true -> le b c = true -> le a c = true) ->
  Forall P l ->
  StronglySorted (fun a b => le a b = true) (sort_by le l) /\ Forall P (sort_by le l).
Proof.
  intros T Tr. induction 1 as [|x l Px Pl [IH IHP]]; simpl.
  - split; constructor.
  - split.
    2:{ eapply Permutation_Forall; [symmetry; apply insert_sorted_perm|].
        now constructor. }
    clear Pl. induction IH as [|y l' S IH' F]; simpl; [repeat constructor|].
    inversion IHP as [|? ? Py Pl']; subst.
    destruct (le x y) eqn:E.
    + constructor; [now constructor|]. constructor; [assumption|].
      rewrite Forall_forall in *. intros z I. apply (Tr x y z); auto.
    + constructor; [now apply IH'|].
      eapply Permutation_Forall; [symmetry; apply insert_sorted_perm|].
      constructor; [|assumption].
      destruct (T x y Px Py); congruence.
Qed.

Lemma StronglySorted_strict {A B} (f : A -> B) (P : A -> Prop) (R R' : A -> A -> Prop) l :
  (forall a b, P a -> P b -> R a b -> f a <> f b -> R' a b) ->
  Forall P l -> NoDup (map f l) -> StronglySorted R l -> StronglySorted R' l.
Proof.
  intros H FP ND S. induction S as [|a l S IH F]; [constructor|].
  inversion FP as [|? ? Pa Pl]; subst. cbn [map] in ND.
  inversion ND as [|? ? N ND']; subst.
  constructor; [now apply IH|].
  rewrite Forall_forall in *. intros b I. apply H; auto.
  intros E. apply N. rewrite E. now apply in_map.
Qed.

Lemma month_number_inj m1 m2 : month_number m1 = month_number m2 -> m1 = m2.
Proof. destruct m1, m2; simpl; intros E; try reflexivity; discriminate. Qed.

Lemma summary_row_cell item :
  month_key (fst item) ->
  exists y m, four_digits y /\ fst item = strftime_B_Y y m
              /\ Summary.Month (summary_row item) = strftime_Y_m y m.
Proof.
  intros (y & m & H & E). exists y, m. split; [assumption|]. split; [assumption|].
  unfold summary_row. cbn [Summary.Month]. now rewrite E, ym_of_key_strftime.
Qed.

(** The rows of the exported summary are in strictly ascending order of
    the calendar. *)
Lemma export_rows_sorted (items : dict Stats) :
  NoDup (dict_keys items) ->
  (forall k, In k (dict_keys items) -> month_key k) ->
  StronglySorted
    (fun a b => month_cell_lt (Summary.Month a) (Summary.Month b))
    (sort_by (fun a b => String.leb (Summary.Month a) (Summary.Month b))
             (map summary_row items)).
Proof.
  intros ND K.
  set (P := fun r : Summary.Row =>
              exists y m, four_digits y /\ Summary.Month r = strftime_Y_m y m).
  assert (Forall P (map summary_row items)) as FP.
  { apply Forall_forall. intros r I. apply in_map_iff in I as (it & <- & I).
    destruct (summary_row_cell it) as (y & m & H & _ & E).
    - apply K. now apply in_map.
    - now exists y, m. }
  destruct (sort_by_strongly_sorted P
              (fun a b => String.leb (Summary.Month a) (Summary.Month b))
              (map summary_row items)) as [S FS]; [| |exact FP|].
  - intros a b _ _. apply String.leb_total.
  - intros a b c (ya & ma & Ha & Ea) (yb & mb & Hb & Eb) (yc & mc & Hc & Ec).
    rewrite Ea, Eb, Ec, !leb_strftime_Y_m by assumption.
    unfold ym_leb. cbn [fst snd]. intros L1 L2.
    apply orb_true_iff in L1 as [L1|L1]; apply orb_true_iff in L2 as [L2|L2];
      try apply andb_prop in L1 as [L1 L1']; try apply andb_prop in L2 as [L2 L2'];
      repeat match goal with
             | H : (_ <? _)%nat = true |- _ => apply Nat.ltb_lt in H
             | H : (_ =? _)%nat = true |- _ => apply Nat.eqb_eq in H
             | H : (_ <=? _)%nat = true |- _ => apply Nat.leb_le in H
             end.
    + apply orb_true_iff. left. apply Nat.ltb_lt. lia.
    + apply orb_true_iff. left. apply Nat.ltb_lt. lia.
    + apply orb_true_iff. left. apply Nat.ltb_lt. lia.
    + apply orb_true_iff. right. apply andb_true_intro. split.
      * apply Nat.eqb_eq. lia.
      * apply Nat.leb_le. lia.
  - apply (StronglySorted_strict Summary.Month P
             (fun a b => String.leb (Summary.Month a) (Summary.Month b) = true));
      [|exact FS| |exact S].
    + intros a b (ya & ma & Ha & Ea) (yb & mb & Hb & Eb) L NE.
      exists ya, ma, yb, mb. repeat (split; [assumption|]).
      rewrite Ea, Eb in L, NE. rewrite leb_strftime_Y_m in L by assumption.
      unfold ym_leb in L. cbn [fst snd] in L.
      apply orb_true_iff in L as [L|L].
      * left. now apply Nat.ltb_lt.
      * apply andb_prop in L as [L1 L2].
        apply Nat.eqb_eq in L1. apply Nat.leb_le in L2. right. split; [assumption|].
        destruct (Nat.eq_dec (month_number ma) (month_number mb)) as [E|]; [|lia].
        apply month_number_inj in E. subst. congruence.
    + eapply Permutation_NoDup.
      { apply Permutation_map. symmetry. apply sort_by_perm. }
      rewrite map_map.
      assert (forall l : dict Stats,
                 NoDup (dict_keys l) ->
                 (forall k, In k (dict_keys l) -> month_key k) ->
                 NoDup (map (fun x => Summary.Month (summary_row x)) l)) as G.
      { induction l as [|it l IH]; intros NDl Kl; [constructor|].
        cbn [map dict_keys] in *. inversion NDl as [|? ? N NDl']; subst.
        constructor.
        - intros I. apply in_map_iff in I as (it' & E & I'). apply N.
          destruct (summary_row_cell it) as (y & m & H & Ek & Ec);
            [apply Kl; now left|].
          destruct (summary_row_cell it') as (y' & m' & H' & Ek' & Ec');
            [apply Kl; right; now apply in_map|].
          rewrite Ec, Ec' in E.
          apply strftime_Y_m_inj in E; [|assumption..].
          injection E as -> ->. rewrite Ek, <- Ek'. now apply in_map.
        - apply IH; [assumption|]. intros k I. apply Kl. now right. }
      now apply G.
Qed.

Lemma totals_nonempty dfp : dfp <> [] -> calculate_monthly_totals dfp <> [].
Proof.
  destruct dfp as [|r dfp]; [congruence|]. intros _ E.
  pose proof (dict_get_totals (r :: dfp) (MonthName r)) as G.
  rewrite E in G. cbn [filter dict_get] in G. rewrite String.eqb_refl in G.
  discriminate.
Qed.

End ExportSummary.

(** ** Percentages of the month: results *)

Section Percentages.
Import FrameFacts NumFacts AggFacts DateFacts.
Local Open Scope list_scope.

Lemma opt_qsum_some (f : Q -> Q) (g : Q -> option Q) l :
  (forall x, g x = Some (f x)) -> opt_qsum (map g l) = Some (qsum (map f l)).
Proof.
  intros H. induction l as [|x l IH]; simpl; [reflexivity|].
  now rewrite H, IH.
Qed.

Lemma opt_qsum_perm l l' p :
  Permutation l l' -> opt_qsum l = Some p ->
  exists p', opt_qsum l' = Some p' /\ p' == p.
Proof.
  intros P. revert p. induction P as [|x l l' P IH|x y l|l l' l'' P1 IH1 P2 IH2]; intros p E.
  - exists p. split; [assumption|reflexivity].
  - destruct x as [x|]; simpl in *; [|discriminate].
    destruct (opt_qsum l) as [q|]; [|discriminate]. injection E as <-.
    destruct (IH q eq_refl) as (q' & -> & Eq). exists (x + q'). split; [reflexivity|].
    now rewrite Eq.
  - destruct x as [x|], y as [y|]; simpl in *; try discriminate.
    destruct (opt_qsum l) as [q|]; [|discriminate]. injection E as <-.
    exists (x + (y + q)). split; [reflexivity|]. ring.
  - destruct (IH1 p E) as (p1 & E1 & Q1). destruct (IH2 p1 E1) as (p2 & E2 & Q2).
    exists p2. split; [assumption|]. now rewrite Q2.
Qed.

Lemma qsum_scale (c : Q) l : qsum (map (fun x => x * c) l) == qsum l * c.
Proof. induction l as [|x l IH]; simpl; [ring|rewrite IH; ring]. Qed.

(** Percentages of amounts that add up to the month total add up to 100
    before they are rounded. *)
Lemma percentages_exact (t : Q) xs :
  0 < t -> qsum xs == t -> qsum (map (fun x => x / t * 100) xs) == 100.
Proof.
  intros H E.
  rewrite (qsum_map_ext _ (fun x => x * (100 / t))).
  - rewrite qsum_scale, E. field. intros Z. rewrite Z in H. discriminate.
  - intros x _. field. intros Z. rewrite Z in H. discriminate.
Qed.

(** Rounded to one decimal, they add up to 100 to half a tenth per row. *)
Lemma percentages_rounded (t : Q) xs :
  0 < t -> qsum xs == t ->
  Qabs (qsum (map (fun x => round1 (x / t * 100)) xs) - 100)
  <= inject_Z (Z.of_nat (List.length xs)) * (1 # 20).
Proof.
  intros H E.
  eapply Qle_trans;
    [|apply (qsum_abs_bound (fun x => round1 (x / t * 100)) (fun x => x / t * 100));
      intros x _; apply round1_error].
  rewrite (percentages_exact t xs H E). apply Qle_refl.
Qed.

Lemma reported_percentages (t : Q) xs :
  0 < t -> qsum xs == t ->
  exists p,
    opt_qsum (map (fun x => option_map round1 (percentage x t)) xs) = Some p
    /\ Qabs (p - 100) <= inject_Z (Z.of_nat (List.length xs)) * (1 # 20).
Proof.
  intros H E. exists (qsum (map (fun x => round1 (x / t * 100)) xs)). split.
  - apply opt_qsum_some. intros x. now rewrite percentage_defined.
  - now apply percentages_rounded.
Qed.

Lemma block_amounts_sum merchant_data :
  qsum (block_amounts merchant_data) == month_total_of merchant_data.
Proof.
  unfold block_amounts, month_total_of.
  assert (qsum (map total merchant_data)
          == qsum (map total (firstn 10 merchant_data))
             + qsum (map total (skipn 10 merchant_data))) as ->.
  { rewrite <- qsum_app, <- map_app, firstn_skipn. reflexivity. }
  rewrite qsum_app.
  destruct (10 <? List.length merchant_data)%nat eqn:L.
  - cbn [qsum fold_right]. ring.
  - apply Nat.ltb_ge in L. rewrite (skipn_all2 merchant_data L). reflexivity.
Qed.

Lemma block_percentages_amounts month merchant_data :
  block_percentages (month_block month merchant_data)
  = map (fun x => option_map round1 (percentage x (month_total_of merchant_data)))
        (block_amounts merchant_data).
Proof.
  unfold block_percentages, month_block, block_amounts.
  cbn [block_lines block_others].
  rewrite map_app, !map_map. cbn [line_percentage]. f_equal.
  - destruct (Nat.min_spec 10 (List.length merchant_data)) as [[_ ->]|[L ->]];
      [reflexivity|].
    now rewrite !firstn_all2 by lia.
  - now destruct (10 <? List.length merchant_data)%nat.
Qed.

(** *** The keys of the spending report *)

Lemma kept_keys {G V} (key : G -> string) (h : G -> option V) gs k :
  In k (map fst (flat_map (fun g => match h g with
                                    | Some v => [(key g, v)]
                                    | None => []
                                    end) gs)) ->
  In k (map key gs).
Proof.
  induction gs as [|g gs IH]; simpl; [tauto|].
  rewrite map_app, in_app_iff. intros [I|I]; [|right; now apply IH].
  destruct (h g); simpl in I; [|tauto]. destruct I as [<-|[]]. now left.
Qed.

Lemma kept_keys_nodup {G V} (key : G -> string) (h : G -> option V) gs :
  NoDup (map key gs) ->
  NoDup (map fst (flat_map (fun g => match h g with
                                     | Some v => [(key g, v)]
                                     | None => []
                                     end) gs)).
Proof.
  induction gs as [|g gs IH]; simpl; intros ND; [constructor|].
  inversion ND as [|? ? N ND']; subst. rewrite map_app.
  destruct (h g); simpl; [|now apply IH].
  constructor; [|now apply IH]. intros I. apply N. now apply kept_keys in I.
Qed.

Lemma report_keys_nodup dfp : NoDup (dict_keys (create_spending_report dfp)).
Proof.
  rewrite create_spending_report_items. apply kept_keys_nodup.
  rewrite groupby_keys. apply group_keys_nodup.
Qed.

Lemma report_keys df k :
  Forall (fun r => valid_date (Date r)) df ->
  In k (dict_keys (create_spending_report (clean_data df))) -> month_key k.
Proof.
  intros V I. apply (month_name_keys df k V).
  rewrite create_spending_report_items in I. apply kept_keys in I.
  rewrite groupby_keys in I. now apply group_keys_in in I.
Qed.

Lemma dict_get_key {V} k (v : V) d : dict_get k d = Some v -> In k (dict_keys d).
Proof. intros E. apply dict_get_in in E. now apply (in_map fst) in E. Qed.

Lemma dict_get_present {V} k (d : dict V) :
  In k (dict_keys d) -> exists v, dict_get k d = Some v.
Proof.
  intros I. destruct (dict_get k d) as [v|] eqn:E; [now exists v|].
  now apply dict_get_absent in E.
Qed.

(** *** The console *)

Lemma sorted_months_ok {V} (d : dict V) :
  (forall k, In k (dict_keys d) -> month_key k) ->
  exists months, sorted_months d = Return months /\ Permutation months (dict_keys d).
Proof.
  intros K. unfold sorted_months.
  rewrite (mapM_ok _ (fun k => (ym_of_key k, k))).
  - eexists. split; [reflexivity|].
    rewrite (Permutation_map snd (sort_by_perm _ _)), map_map. cbn [snd].
    now rewrite map_id.
  - intros k I. now rewrite (month_key_parses k (K k I)).
Qed.

(** With keys that are month names, the console shows the block of every
    month of the report. *)
Lemma print_spending_details_blocks (report : dict (list MerchantRow)) :
  (forall k, In k (dict_keys report) -> month_key k) ->
  exists blocks,
    print_spending_details report = Return blocks
    /\ forall m table, dict_get m report = Some table ->
                       In (month_block m table) blocks.
Proof.
  intros K. unfold print_spending_details.
  destruct (sorted_months_ok report K) as (months & -> & P). cbn [bind].
  set (g := fun m => month_block m match dict_get m report with
                                   | Some t => t
                                   | None => []
                                   end).
  rewrite (mapM_ok _ g).
  - eexists. split; [reflexivity|]. intros m table E.
    replace (month_block m table) with (g m) by (unfold g; now rewrite E).
    apply in_map. eapply Permutation_in; [symmetry; exact P|].
    now apply dict_get_key in E.
  - intros m I. unfold dict_item, g.
    destruct (dict_get_present m report) as (v & ->); [|reflexivity].
    eapply Permutation_in; [exact P|exact I].
Qed.

(** *** The exported details *)

Lemma Permutation_filter {A} (p : A -> bool) l l' :
  Permutation l l' -> Permutation (filter p l) (filter p l').
Proof.
  induction 1 as [|x l l' P IH|x y l|l l' l'' P1 IH1 P2 IH2]; simpl.
  - constructor.
  - destruct (p x); [now constructor|assumption].
  - destruct (p x), (p y); try reflexivity. apply perm_swap.
  - now transitivity (filter p l').
Qed.

Lemma cell_of_key_inj k1 k2 :
  month_key k1 -> month_key k2 -> cell_of_key k1 = cell_of_key k2 -> k1 = k2.
Proof.
  intros (y1 & m1 & H1 & ->) (y2 & m2 & H2 & ->). unfold cell_of_key.
  rewrite !ym_of_key_strftime by assumption. cbn [fst snd]. intros E.
  apply strftime_Y_m_inj in E; [|assumption..]. congruence.
Qed.

Lemma filter_detail_rows_same item :
  filter (fun r => String.eqb (Details.Month r) (cell_of_key (fst item))) (detail_rows item)
  = detail_rows item.
Proof.
  unfold detail_rows. generalize (month_total_of (snd item)) as t.
  intros t. generalize (cell_of_key (fst item)) as c. intros c.
  induction (snd item) as [|r l IH]; [reflexivity|].
  cbn [map filter detail_row Details.Month]. now rewrite String.eqb_refl, IH.
Qed.

Lemma filter_detail_rows_other item cell :
  cell_of_key (fst item) <> cell ->
  filter (fun r => String.eqb (Details.Month r) cell) (detail_rows item) = [].
Proof.
  intros NE. unfold detail_rows. generalize (month_total_of (snd item)) as t.
  intros t. revert NE. generalize (cell_of_key (fst item)) as c. intros c NE.
  induction (snd item) as [|r l IH]; [reflexivity|].
  cbn [map filter detail_row Details.Month].
  destruct (String.eqb_spec c cell); [contradiction|assumption].
Qed.

Lemma filter_concat_detail_rows (report : dict (list MerchantRow)) m table :
  NoDup (dict_keys report) ->
  (forall k, In k (dict_keys report) -> month_key k) ->
  In (m, table) report ->
  filter (fun r => String.eqb (Details.Month r) (cell_of_key m))
         (List.concat (map detail_rows report))
  = detail_rows (m, table).
Proof.
  intros ND K I.
  assert (month_key m) as Km by (apply K; now apply (in_map fst) in I).
  induction report as [|[k t] report IH]; [destruct I|].
  cbn [map List.concat dict_keys] in *. rewrite filter_app.
  inversion ND as [|? ? N ND']; subst.
  destruct I as [[= -> ->]|I].
  - pose proof (filter_detail_rows_same (m, table)) as Same. cbn [fst] in Same.
    rewrite Same. clear Same.
    assert (forall l : dict (list MerchantRow),
               ~ In m (map fst l) ->
               (forall k, In k (map fst l) -> month_key k) ->
               filter (fun r => String.eqb (Details.Month r) (cell_of_key m))
                      (List.concat (map detail_rows l)) = []) as Z.
    { induction l as [|[k' t'] l IHl]; intros Nm Kl; [reflexivity|].
      cbn [map List.concat] in *. rewrite filter_app, filter_detail_rows_other, IHl.
      - reflexivity.
      - intros Im. apply Nm. now right.
      - intros k0 I0. apply Kl. now right.
      - cbn [fst]. intros E. apply cell_of_key_inj in E; [|apply Kl; now left|assumption].
        apply Nm. now left. }
    rewrite Z; [apply app_nil_r|assumption|].
    intros k0 I0. apply K. now right.
  - rewrite filter_detail_rows_other, IH; [reflexivity|assumption| |assumption|].
    + intros k0 I0. apply K. now right.
    + cbn [fst]. intros E.
      apply cell_of_key_inj in E; [|apply K; now left|assumption].
      subst k. apply N. now apply (in_map fst) in I.
Qed.

(** With keys that are month names and a row to write, the second half of
    the export returns the rows of all months, sorted by month cell and,
    within a month, by amount from the largest down. *)
Lemma export_spending_details_rows (report : dict (list MerchantRow)) :
  (forall k, In k (dict_keys report) -> month_key k) ->
  List.concat (map detail_rows report) <> [] ->
  export_spending_details report
  = Return (sort_by (fun a b => String.ltb (Details.Month a) (Details.Month b)
                                || String.eqb (Details.Month a) (Details.Month b)
                                   && Qle_bool (Details.Amount b) (Details.Amount a))
                    (List.concat (map detail_rows report))).
Proof.
  intros K NE. unfold export_spending_details.
  rewrite (mapM_ok _ detail_rows).
  - cbn [bind]. unfold sort_values.
    destruct (List.concat (map detail_rows report)); [congruence|reflexivity].
  - intros item I. rewrite month_key_parses by (apply K; now apply in_map).
    reflexivity.
Qed.

Lemma concat_nonempty {A} (ls : list (list A)) l :
  In l ls -> l <> [] -> List.concat ls <> [].
Proof.
  intros I NE E. destruct l as [|a l]; [congruence|].
  assert (In a (List.concat ls)) as Ia by (apply in_concat; exists (a :: l); split; [assumption|now left]).
  rewrite E in Ia. destruct Ia.
Qed.

Lemma month_total_nonempty table : 0 < month_total_of table -> table <> [].
Proof. intros H ->. discriminate. Qed.

Lemma round1_rounded x : rounded_to_tenths x (round1 x).
Proof.
  split; [|apply round1_error].
  exists (round_half_even (x * inject_Z (10 ^ Z.of_nat 1))). reflexivity.
Qed.

Lemma Forall2_map_right {A B} (R : A -> B -> Prop) (f : A -> B) l :
  (forall a, R a (f a)) -> Forall2 R l (map f l).
Proof. intros H. induction l as [|a l IH]; cbn [map]; constructor; auto. Qed.

Lemma Forall2_Forall_right {A B} (R : A -> B -> Prop) (P : B -> Prop) l l' :
  (forall a b, R a b -> P b) -> Forall2 R l l' -> Forall P l'.
Proof. intros H. induction 1; constructor; eauto. Qed.

Lemma rounded_sum_bound (f : Q -> Q) xs ps :
  Forall2 (fun x p => Qabs (p - f x) <= 1 # 20) xs ps ->
  Qabs (qsum ps - qsum (map f xs)) <= inject_Z (Z.of_nat (List.length ps)) * (1 # 20).
Proof.
  induction 1 as [|x p xs ps B F IH].
  - unfold Qle. simpl. lia.
  - cbn [map qsum fold_right List.length].
    rewrite Nat2Z.inj_succ, <- Z.add_1_r, inject_Z_plus.
    fold (qsum ps). fold (qsum (map f xs)).
    setoid_replace (p + qsum ps - (f x + qsum (map f xs)))
      with ((p - f x) + (qsum ps - qsum (map f xs))) by ring.
    eapply Qle_trans; [apply Qabs_triangle|].
    setoid_replace ((inject_Z (Z.of_nat (List.length ps)) + inject_Z 1) * (1 # 20))
      with ((1 # 20) + inject_Z (Z.of_nat (List.length ps)) * (1 # 20)) by ring.
    apply Qplus_le_compat; assumption.
Qed.

(** Multiples of a tenth within half a tenth of the exact percentages add up
    to 100 to half a tenth per number, whichever way a tie is rounded. *)
Lemma rounded_percentages_sum (t : Q) xs ps :
  0 < t -> qsum xs == t ->
  Forall2 (fun x p => rounded_to_tenths (x / t * 100) p) xs ps ->
  Qabs (qsum ps - 100) <= inject_Z (Z.of_nat (List.length ps)) * (1 # 20).
Proof.
  intros H E F.
  eapply Qle_trans; [|apply (rounded_sum_bound (fun x => x / t * 100) xs)].
  - rewrite (percentages_exact t xs H E). apply Qle_refl.
  - eapply Forall2_impl; [|exact F]. intros a b [_ B]. exact B.
Qed.

(** C2, as the program has it.  For a month of the spending report whose
    month total (the sum of its merchants' totals) is above zero: on the
    console and in the exported details each merchant's percentage is its
    total divided by the month total, times 100, rounded to one decimal,
    that is, a multiple of 0.1 at most 0.05 away from the quotient (at a tie
    either neighbour; the console and the export round by different
    routines); the percentages of the month's rows (the row for the other
    merchants included, on the console) add up to 100.0 to within 0.05 per
    row, and so do any roundings of this kind. *)
Theorem percentage_of_month (df : list Row) (m : string) (table : list MerchantRow) :
  Forall (fun r => valid_date (Date r)) df ->
  dict_get m (create_spending_report (clean_data df)) = Some table ->
  0 < month_total_of table ->
  (exists blocks,
      print_spending_details (create_spending_report (clean_data df)) = Return blocks
      /\ In (month_block m table) blocks
      /\ Forall2 (fun r l =>
                    line_merchant l = merchant r
                    /\ line_total l = total r
                    /\ line_count l = count r
                    /\ exists p,
                        line_percentage l = Some p
                        /\ rounded_to_tenths (total r / month_total_of table * 100) p)
                 (firstn 10 table) (block_lines (month_block m table))
      /\ (exists p,
             opt_qsum (block_percentages (month_block m table)) = Some p
             /\ Qabs (p - 100)
                <= inject_Z (Z.of_nat (List.length
                                         (block_percentages (month_block m table))))
                   * (1 # 20))
      /\ forall ps,
          Forall2 (fun x p => rounded_to_tenths (x / month_total_of table * 100) p)
                  (block_amounts table) ps ->
          Qabs (qsum ps - 100) <= inject_Z (Z.of_nat (List.length ps)) * (1 # 20))
  /\ (exists rows,
         export_spending_details (create_spending_report (clean_data df)) = Return rows
         /\ (exists month_rows,
                Permutation
                  (filter (fun r => String.eqb (Details.Month r) (cell_of_key m)) rows)
                  month_rows
                /\ Forall2 (fun r d =>
                              Details.Month d = cell_of_key m
                              /\ Details.Merchant d = merchant r
                              /\ Details.Amount d = total r
                              /\ Details.Transaction_Count d = count r
                              /\ exists p,
                                  Details.Percentage_of_Month d = Some p
                                  /\ rounded_to_tenths
                                       (total r / month_total_of table * 100) p)
                           table month_rows)
         /\ (exists p,
                opt_qsum (month_percentages (cell_of_key m) rows) = Some p
                /\ Qabs (p - 100) <= inject_Z (Z.of_nat (List.length table)) * (1 # 20))
         /\ forall ps,
             Forall2 (fun x p => rounded_to_tenths (x / month_total_of table * 100) p)
                     (map total table) ps ->
             Qabs (qsum ps - 100) <= inject_Z (Z.of_nat (List.length ps)) * (1 # 20)).
Proof.
  intros V G T.
  set (report := create_spending_report (clean_data df)) in *.
  assert (forall k, In k (dict_keys report) -> month_key k) as K
    by (intros k; apply report_keys; exact V).
  pose proof (report_keys_nodup (clean_data df)) as ND. fold report in ND.
  split.
  - destruct (print_spending_details_blocks report K) as (blocks & E & I).
    exists blocks. split; [exact E|]. split; [now apply I|]. split; [|split].
    + unfold month_block. cbn [block_lines].
      assert (firstn (Nat.min 10 (List.length table)) table = firstn 10 table) as ->.
      { destruct (Nat.min_spec 10 (List.length table)) as [[_ ->]|[L ->]];
          [reflexivity|]. now rewrite !firstn_all2 by lia. }
      apply Forall2_map_right. intros r.
      cbn [line_merchant line_total line_count line_percentage].
      repeat (split; [reflexivity|]).
      rewrite percentage_defined by assumption. cbn [option_map].
      eexists. split; [reflexivity|apply round1_rounded].
    + rewrite block_percentages_amounts, length_map.
      apply reported_percentages; [assumption|apply block_amounts_sum].
    + intros ps F.
      apply (rounded_percentages_sum (month_total_of table) (block_amounts table));
        [assumption|apply block_amounts_sum|exact F].
  - assert (In (m, table) report) as I by now apply dict_get_in.
    assert (detail_rows (m, table)
            = map (fun r => {| Details.Month := cell_of_key m;
                               Details.Merchant := merchant r;
                               Details.Amount := total r;
                               Details.Transaction_Count := count r;
                               Details.Percentage_of_Month :=
                                 Some (round1 (total r / month_total_of table * 100)) |})
                  table) as D.
    { unfold detail_rows. cbn [fst snd]. apply map_ext. intros r.
      unfold detail_row. now rewrite percentage_defined. }
    eexists. split.
    { apply export_spending_details_rows; [exact K|].
      apply (concat_nonempty _ (detail_rows (m, table))).
      - now apply in_map.
      - rewrite D. intros E. apply map_eq_nil in E.
        now apply month_total_nonempty in T. }
    assert (Permutation
              (filter (fun r => String.eqb (Details.Month r) (cell_of_key m))
                 (sort_by (fun a b => String.ltb (Details.Month a) (Details.Month b)
                                      || String.eqb (Details.Month a) (Details.Month b)
                                         && Qle_bool (Details.Amount b) (Details.Amount a))
                          (List.concat (map detail_rows report))))
              (detail_rows (m, table))) as P.
    { rewrite (Permutation_filter _ _ _ (sort_by_perm _ _)).
      now rewrite (filter_concat_detail_rows report m table ND K I). }
    split; [|split].
    + exists (detail_rows (m, table)). split; [exact P|].
      rewrite D. apply Forall2_map_right. intros r.
      cbn [Details.Month Details.Merchant Details.Amount Details.Transaction_Count
           Details.Percentage_of_Month].
      repeat (split; [reflexivity|]).
      eexists. split; [reflexivity|apply round1_rounded].
    + unfold month_percentages.
      destruct (opt_qsum_perm
                  (map Details.Percentage_of_Month (detail_rows (m, table)))
                  (map Details.Percentage_of_Month
                     (filter (fun r => String.eqb (Details.Month r) (cell_of_key m))
                        (sort_by (fun a b => String.ltb (Details.Month a) (Details.Month b)
                                             || String.eqb (Details.Month a) (Details.Month b)
                                                && Qle_bool (Details.Amount b) (Details.Amount a))
                                 (List.concat (map detail_rows report)))))
                  (qsum (map (fun x => round1 (x / month_total_of table * 100))
                             (map total table))))
        as (p & Ep & Qp).
      { apply Permutation_map. now symmetry. }
      { rewrite D, map_map. cbn [Details.Percentage_of_Month].
        rewrite <- (map_map total (fun x => Some (round1 (x / month_total_of table * 100)))).
        now apply opt_qsum_some. }
      exists p. split; [exact Ep|]. rewrite Qp.
      rewrite <- (length_map total table).
      apply percentages_rounded; [assumption|reflexivity].
    + intros ps F.
      apply (rounded_percentages_sum (month_total_of table) (map total table));
        [assumption|reflexivity|exact F].
Qed.

Lemma percentage_of_month_witness :
  exists rows,
    export_spending_details (create_spending_report (clean_data march_2024)) = Return rows
    /\ (exists month_rows,
           Permutation
             (filter (fun r => String.eqb (Details.Month r) "2024-03") rows) month_rows
           /\ Forall (fun d => exists p k,
                          Details.Percentage_of_Month d = Some p /\ p == k # 10)
                     month_rows)
    /\ exists p,
        opt_qsum (month_percentages "2024-03" rows) = Some p
        /\ Qabs (p - 100) <= inject_Z 2 * (1 # 20).
Proof.
  destruct (proj2 (percentage_of_month march_2024 "March 2024"
                     [{| merchant := "Uber Eats"; total := 4215 # 100; count := 1 |};
                      {| merchant := "NETFLIX.COM"; total := 999 # 100; count := 1 |}]
                     ltac:(repeat (constructor;
                                   [unfold valid_date; cbn [year Date mk_row]; lia|]);
                           constructor)
                     eq_refl eq_refl))
    as (rows & E & (month_rows & P & F) & (p & Ep & B) & _).
  exists rows. split; [exact E|]. split.
  - exists month_rows. split; [exact P|].
    eapply Forall2_Forall_right; [|exact F].
    intros r d (_ & _ & _ & _ & q & Eq & (k & Hk) & _). exists q, k. now split.
  - exists p. split; [exact Ep|exact B].
Defined.

(** C2, as stated, fails.  Six merchants with one dollar each in a month
    are reported at 16.7 percent each, on the console and in the export:
    the six add up to 100.2, which is 0.2 away from 100.0.  And a month of a
    single amount of -0.004 has a month total of 0, and a percentage that is
    not a number. *)
Lemma percentage_sum_counterexample :
  (rows <- export_spending_details (create_spending_report (clean_data six_merchants)) ;;
   Return (month_percentages "2024-03" rows))
  = Return [Some (167 # 10); Some (167 # 10); Some (167 # 10);
            Some (167 # 10); Some (167 # 10); Some (167 # 10)]
  /\ (blocks <- print_spending_details (create_spending_report (clean_data six_merchants)) ;;
      Return (flat_map block_percentages blocks))
     = Return [Some (167 # 10); Some (167 # 10); Some (167 # 10);
               Some (167 # 10); Some (167 # 10); Some (167 # 10)]
  /\ (forall p,
         opt_qsum [Some (167 # 10); Some (167 # 10); Some (167 # 10);
                   Some (167 # 10); Some (167 # 10); Some (167 # 10)] = Some p ->
         p == 1002 # 10 /\ ~ Qabs (p - 100) <= 1 # 10)
  /\ (rows <- export_spending_details
                (create_spending_report
                   (clean_data [mk_row 2024 March 1 "COFFEE" (- (4 # 1000)) "Posted"])) ;;
      Return (month_percentages "2024-03" rows))
     = Return [None].
Proof.
  split; [vm_compute; reflexivity|].
  split; [vm_compute; reflexivity|].
  split; [|vm_compute; reflexivity].
  intros p E. vm_compute in E. injection E as <-.
  split; [reflexivity|]. vm_compute. intros H. now apply H.
Qed.

End Percentages.

(** ** The monthly summary of no month *)

Section ZeroMonths.
Import AggFacts.

(** Without a posted row there is no month, and the averages divide by the
    number of months. *)
Lemma print_monthly_summary_no_posted (df : list Row) :
  clean_data df = [] ->
  print_monthly_summary (calculate_monthly_totals (clean_data df)) (clean_data df)
  = Raise ZeroDivisionError.
Proof. intros ->. reflexivity. Qed.

(** C1.  On an input whose only row is pending there is no posted row and
    no month; [print_monthly_summary] raises [ZeroDivisionError] at the first
    average, and the run ends there. *)
Theorem print_monthly_summary_zero_months :
  clean_data pending_only = []
  /\ calculate_monthly_totals (clean_data pending_only) = []
  /\ print_monthly_summary (calculate_monthly_totals (clean_data pending_only))
                           (clean_data pending_only)
     = Raise ZeroDivisionError
  /\ main pending_only None = Raise ZeroDivisionError.
Proof. repeat split; reflexivity. Qed.

End ZeroMonths.

(** ** The worked example of the specification *)

Example march_2024_report :
  create_spending_report (clean_data march_2024)
  = [("March 2024",
      [{| merchant := "Uber Eats"; total := 4215 # 100; count := 1 |};
       {| merchant := "NETFLIX.COM"; total := 999 # 100; count := 1 |}])].
Proof. vm_compute. reflexivity. Qed.

Example march_2024_totals :
  exists st,
    calculate_monthly_totals (clean_data march_2024) = [("March 2024", st)]
    /\ deposits st == 1500 /\ spending st == 5214 # 100
    /\ net st == 144786 # 100 /\ transaction_count st = 3%nat.
Proof. eexists. split; [reflexivity|]. repeat split. Qed.

Example march_2024_percentages :
  (blocks <- print_spending_details (create_spending_report (clean_data march_2024)) ;;
   Return (flat_map block_percentages blocks))
  = Return [Some (808 # 10); Some (192 # 10)].
Proof. vm_compute. reflexivity. Qed.

(** ** The clean name as a part of the description *)

Module NameFacts.
Import PyStr PyStrFacts.

Lemma append_assoc (a b c : string) : ((a ++ b) ++ c = a ++ (b ++ c))%string.
Proof. induction a as [|x a IH]; simpl; [reflexivity|now rewrite IH]. Qed.

Lemma append_nil_r (a : string) : (a ++ "" = a)%string.
Proof. induction a as [|x a IH]; simpl; [reflexivity|now rewrite IH]. Qed.

Lemma append_length (a b : string) :
  String.length (a ++ b) = (String.length a + String.length b)%nat.
Proof. induction a as [|x a IH]; simpl; [reflexivity|now rewrite IH]. Qed.

Lemma prefix_iff p s : String.prefix p s = true <-> exists r, s = (p ++ r)%string.
Proof.
  revert s. induction p as [|a p IH]; intros s.
  - split; [intros _; now exists s|]. intros _. now destruct s.
  - destruct s as [|b s]; simpl.
    + split; [discriminate|]. intros (r & E). discriminate.
    + destruct (Ascii.ascii_dec a b) as [->|NE].
      * rewrite IH. split; intros (r & E); exists r; congruence.
      * split; [discriminate|]. intros (r & E). congruence.
Qed.

Lemma contains_iff p s : contains p s = true <-> part_of p s.
Proof.
  unfold part_of. induction s as [|c s IH]; cbn [contains].
  - rewrite orb_false_r, prefix_iff. split.
    + intros (r & E). now exists "", r.
    + intros (l & r & E). destruct l; [now exists r|discriminate].
  - rewrite orb_true_iff, IH, prefix_iff. split.
    + intros [(r & E)|(l & r & E)].
      * now exists "", r.
      * exists (String c l), r. simpl. now rewrite E.
    + intros (l & r & E). destruct l as [|x l].
      * left. now exists r.
      * right. simpl in E. exists l, r. congruence.
Qed.

Lemma part_of_refl a : part_of a a.
Proof. exists "", "". simpl. now rewrite append_nil_r. Qed.

Lemma part_of_trans a b c : part_of a b -> part_of b c -> part_of a c.
Proof.
  intros (l & r & ->) (l' & r' & ->). exists (l' ++ l)%string, (r ++ r')%string.
  now rewrite !append_assoc.
Qed.

Lemma lstrip_part s : part_of (lstrip s) s.
Proof.
  induction s as [|c s (l & r & E)]; simpl.
  - apply part_of_refl.
  - destruct (is_space c); [|apply part_of_refl].
    exists (String c l), r. simpl. now rewrite <- E.
Qed.

Lemma rstrip_part s : part_of (rstrip s) s.
Proof.
  destruct (rstrip_decomp s) as (w & _ & E). exists "", w. simpl. exact E.
Qed.

Lemma strip_part s : part_of (strip s) s.
Proof. eapply part_of_trans; [apply rstrip_part|apply lstrip_part]. Qed.

Lemma slice_to_prefix n s : exists t, s = (slice_to n s ++ t)%string.
Proof.
  unfold slice_to. revert n. induction s as [|c s IH]; intros [|n]; simpl.
  - now exists "".
  - now exists "".
  - now exists (String c s).
  - destruct (IH n) as (t & E). exists t. now rewrite <- E.
Qed.

Lemma slice_to_part n s : part_of (slice_to n s) s.
Proof. destruct (slice_to_prefix n s) as (t & E). now exists "", t. Qed.

Lemma split_head_prefix sep s : exists t, s = (split_head sep s ++ t)%string.
Proof.
  induction s as [|c s (t & E)]; cbn [split_head].
  - exists "". now destruct (String.prefix sep "").
  - destruct (String.prefix sep (String c s)); [now exists (String c s)|].
    exists t. simpl. now rewrite <- E.
Qed.

Lemma split_head_part sep s : part_of (split_head sep s) s.
Proof. destruct (split_head_prefix sep s) as (t & E). now exists "", t. Qed.

(** The part before the first separator holds no separator. *)
Lemma split_head_no_sep sep s :
  sep <> "" -> contains sep (split_head sep s) = false.
Proof.
  intros NE. induction s as [|c s IH]; cbn [split_head].
  - destruct sep; [congruence|]. now destruct (String.prefix _ _).
  - destruct (String.prefix sep (String c s)) eqn:P.
    + destruct sep; [congruence|reflexivity].
    + cbn [contains]. rewrite IH, orb_false_r.
      destruct (String.prefix sep (String c (split_head sep s))) eqn:Q; [|reflexivity].
      apply prefix_iff in Q as (r & E).
      destruct (split_head_prefix sep s) as (t & Et).
      assert (String.prefix sep (String c s) = true) as P'.
      { apply prefix_iff. exists (r ++ t)%string.
        rewrite <- append_assoc, <- E. simpl. now rewrite <- Et. }
      congruence.
Qed.

Lemma split_head_id sep s : contains sep s = false -> split_head sep s = s.
Proof.
  induction s as [|c s IH]; cbn [contains split_head].
  - now destruct (String.prefix sep "").
  - intros H. apply orb_false_iff in H as [P C]. rewrite P. now rewrite IH.
Qed.

Lemma part_of_length a b : part_of a b -> (String.length a <= String.length b)%nat.
Proof. intros (l & r & ->). rewrite !append_length. lia. Qed.

Lemma slice_to_length n s : (String.length (slice_to n s) <= n)%nat.
Proof.
  unfold slice_to. revert n. induction s as [|c s IH]; intros [|n]; simpl; try lia.
  specialize (IH n). lia.
Qed.

Lemma contains_part p a b : part_of a b -> contains p b = false -> contains p a = false.
Proof.
  intros P H. destruct (contains p a) eqn:E; [|reflexivity].
  apply contains_iff in E. rewrite <- H. symmetry. apply contains_iff.
  eapply part_of_trans; eassumption.
Qed.

Lemma matches_no_rule_part a b :
  part_of a b -> matches_no_rule b = true -> matches_no_rule a = true.
Proof.
  intros P. unfold matches_no_rule, spec_rules. cbn [forallb fst].
  rewrite !andb_true_r, !andb_true_iff, !negb_true_iff, !andb_false_iff.
  intros (H1 & H2 & H3 & H4 & H5 & H6).
  repeat split; try (eapply contains_part; eassumption).
  destruct H6 as [H6|H6]; [left|right]; eapply contains_part; eassumption.
Qed.

Lemma spec_default_part t : part_of (spec_default t) t.
Proof.
  unfold spec_default.
  eapply part_of_trans; [apply strip_part|].
  eapply part_of_trans; [apply slice_to_part|apply split_head_part].
Qed.

Lemma spec_default_length t : (String.length (spec_default t) <= 50)%nat.
Proof.
  unfold spec_default.
  pose proof (part_of_length _ _ (strip_part (slice_to 50 (split_head "***" t)))).
  pose proof (slice_to_length 50 (split_head "***" t)). lia.
Qed.

Lemma spec_default_fixed t : spec_default (spec_default t) = spec_default t.
Proof.
  set (r := spec_default t). unfold spec_default at 1.
  rewrite split_head_id.
  - rewrite slice_to_all by apply spec_default_length.
    unfold r, spec_default. apply strip_idem.
  - apply (contains_part "***" r (split_head "***" t)).
    + unfold r, spec_default.
      eapply part_of_trans; [apply strip_part|apply slice_to_part].
    + now apply split_head_no_sep.
Qed.

(** The name is one of the seven fixed names or the default name of the
    trimmed description. *)
Lemma clean_merchant_cases desc :
  In (clean_merchant_name desc)
     ["Uber Eats"; "PayPal Transfer"; "PayPal"; "CareerBuilder Paycheck";
      "Interest Income"; "Georgia State Tax Refund"; "Federal Tax Refund"]
  \/ (matches_no_rule (strip desc) = true
      /\ clean_merchant_name desc = spec_default (strip desc)).
Proof.
  destruct (matches_no_rule (strip desc)) eqn:M.
  - right. split; [reflexivity|]. now apply clean_merchant_default.
  - left. rewrite clean_merchant_name_spec. unfold spec_clean_merchant.
    revert M. unfold matches_no_rule, spec_rules. cbn [forallb first_match fst snd].
    set (d := strip desc).
    repeat match goal with
           | |- context [negb ?b] => destruct b; cbn [negb andb In]; auto 10
           end.
    all: try discriminate.
    all: intros _; destruct (contains "INST XFER" d); cbn [In]; auto 10.
Qed.

End NameFacts.

Section CleanNames.
Import PyStr PyStrFacts NameFacts.

(** X1.  The clean name of every description has at most 50 characters and
    neither starts nor ends with white space. *)
Theorem clean_merchant_name_trimmed_short (desc : string) :
  (String.length (clean_merchant_name desc) <= 50)%nat
  /\ strip (clean_merchant_name desc) = clean_merchant_name desc.
Proof.
  destruct (clean_merchant_cases desc) as [I|[_ ->]].
  - cbn [In] in I.
    repeat (destruct I as [<-|I]; [split; [cbn; lia|reflexivity]|]). destruct I.
  - split; [apply spec_default_length|]. unfold spec_default. apply strip_idem.
Qed.

(** X2.  Cleaning is idempotent: the clean name of a clean name is the
    name itself. *)
Theorem clean_merchant_name_idempotent (desc : string) :
  clean_merchant_name (clean_merchant_name desc) = clean_merchant_name desc.
Proof.
  destruct (clean_merchant_cases desc) as [I|[M E]].
  - cbn [In] in I. repeat (destruct I as [<-|I]; [reflexivity|]). destruct I.
  - rewrite E. set (t := strip desc) in *.
    assert (strip (spec_default t) = spec_default t) as S
      by (unfold spec_default; apply strip_idem).
    rewrite clean_merchant_default; rewrite S.
    + apply spec_default_fixed.
    + eapply matches_no_rule_part; [apply spec_default_part|exact M].
Qed.

(** X3.  A description that matches no named pattern is named by a
    contiguous part of itself. *)
Theorem clean_merchant_name_part_of (desc : string) :
  matches_no_rule (strip desc) = true ->
  part_of (clean_merchant_name desc) desc.
Proof.
  intros M. rewrite (clean_merchant_default desc M).
  eapply part_of_trans; [apply spec_default_part|apply strip_part].
Qed.

Lemma clean_merchant_name_part_of_witness :
  part_of (clean_merchant_name "  CHEVRON 0301234 ***********F3A3")
          "  CHEVRON 0301234 ***********F3A3".
Proof.
  apply (clean_merchant_name_part_of "  CHEVRON 0301234 ***********F3A3" eq_refl).
Defined.

End CleanNames.

(** ** The console tables in the order of the calendar *)

Module ConsoleFacts.
Import FrameFacts NumFacts AggFacts DateFacts.
Local Open Scope list_scope.

Lemma ym_leb_total a b : ym_leb a b = true \/ ym_leb b a = true.
Proof.
  unfold ym_leb.
  destruct (Nat.lt_trichotomy (fst a) (fst b)) as [L|[E|L]].
  - left. apply orb_true_iff. left. now apply Nat.ltb_lt.
  - rewrite E, Nat.eqb_refl, Nat.ltb_irrefl. cbn [orb andb].
    destruct (Nat.le_ge_cases (month_number (snd a)) (month_number (snd b)));
      [left|right]; now apply Nat.leb_le.
  - right. apply orb_true_iff. left. now apply Nat.ltb_lt.
Qed.

Lemma ym_leb_iff a b :
  ym_leb a b = true <->
  (fst a < fst b \/ fst a = fst b /\ month_number (snd a) <= month_number (snd b))%nat.
Proof.
  unfold ym_leb. rewrite orb_true_iff, andb_true_iff, Nat.ltb_lt, Nat.eqb_eq, Nat.leb_le.
  reflexivity.
Qed.

Lemma ym_leb_trans a b c : ym_leb a b = true -> ym_leb b c = true -> ym_leb a c = true.
Proof. rewrite !ym_leb_iff. lia. Qed.

Lemma ym_leb_strict a b : ym_leb a b = true -> a <> b -> ym_lt a b.
Proof.
  rewrite ym_leb_iff. unfold ym_lt. intros [L|[E L]] NE; [now left|].
  right. split; [assumption|].
  destruct (Nat.eq_dec (month_number (snd a)) (month_number (snd b))) as [E'|]; [|lia].
  exfalso. apply NE. destruct a as [ya ma], b as [yb mb]. cbn [fst snd] in *.
  f_equal; [assumption|]. destruct ma, mb; simpl in E'; try reflexivity; discriminate.
Qed.

Lemma month_key_ym k1 k2 :
  month_key k1 -> month_key k2 -> ym_of_key k1 = ym_of_key k2 -> k1 = k2.
Proof.
  intros (y1 & m1 & H1 & ->) (y2 & m2 & H2 & ->).
  rewrite !(ym_of_key_strftime _ _) by assumption. congruence.
Qed.

Lemma StronglySorted_map {A B} (f : A -> B) (R : B -> B -> Prop) l :
  StronglySorted (fun a b => R (f a) (f b)) l -> StronglySorted R (map f l).
Proof.
  induction 1 as [|a l S IH F]; simpl; constructor; [assumption|].
  apply Forall_forall. intros b I. apply in_map_iff in I as (x & <- & I).
  rewrite Forall_forall in F. now apply F.
Qed.

(** The months of a dictionary keyed by month names, sorted for display:
    every month once, earlier months first. *)
Lemma sorted_months_chrono {V} (d : dict V) :
  (forall k, In k (dict_keys d) -> month_key k) ->
  NoDup (dict_keys d) ->
  exists months,
    sorted_months d = Return months
    /\ Permutation months (dict_keys d)
    /\ StronglySorted chrono_lt months.
Proof.
  intros K ND. unfold sorted_months.
  rewrite (mapM_ok _ (fun k => (ym_of_key k, k)))
    by (intros k I; now rewrite (month_key_parses k (K k I))).
  cbn [bind].
  set (keyed := map (fun k => (ym_of_key k, k)) (dict_keys d)).
  set (le := fun a b : nat * month * string => ym_leb (fst a) (fst b)).
  assert (map snd keyed = dict_keys d) as Ek.
  { unfold keyed. rewrite map_map. cbn [snd]. apply map_id. }
  eexists. split; [reflexivity|]. split.
  - rewrite (Permutation_map snd (sort_by_perm le keyed)). now rewrite Ek.
  - set (P := fun a : nat * month * string => month_key (snd a) /\ fst a = ym_of_key (snd a)).
    assert (Forall P keyed) as FP.
    { apply Forall_forall. intros a I. apply in_map_iff in I as (k & <- & I).
      split; [now apply K|reflexivity]. }
    destruct (sort_by_strongly_sorted P le keyed) as [S FS]; [| |exact FP|].
    + intros a b _ _. apply ym_leb_total.
    + intros a b c _ _ _. apply ym_leb_trans.
    + apply StronglySorted_map.
      apply (StronglySorted_strict snd P (fun a b => le a b = true)); [|exact FS| |exact S].
      * intros a b [Ka Ea] [Kb Eb] L NE. unfold chrono_lt. rewrite <- Ea, <- Eb.
        apply ym_leb_strict; [exact L|]. intros E. apply NE.
        apply month_key_ym; try assumption. now rewrite <- Ea, <- Eb.
      * eapply Permutation_NoDup;
          [apply Permutation_map; symmetry; apply sort_by_perm|].
        now rewrite Ek.
Qed.

Lemma dict_items_of_keys {V} (d : dict V) (f : string -> V) :
  NoDup (dict_keys d) ->
  (forall k v, dict_get k d = Some v -> f k = v) ->
  map (fun k => (k, f k)) (dict_keys d) = d.
Proof.
  intros ND H. unfold dict_keys. rewrite map_map.
  rewrite <- (map_id d) at 2. apply map_ext_in. intros [k v] I. cbn [fst].
  f_equal. apply H. now apply dict_get_nodup.
Qed.

Lemma fold_left_qsum {A} (f : A -> Q) l a :
  fold_left (fun acc x => acc + f x) l a == a + qsum (map f l).
Proof.
  revert a. induction l as [|x l IH]; intros a; simpl; [ring|].
  rewrite IH. ring.
Qed.

Lemma py_div_pos x n : (n <> 0)%nat -> py_div x n = Return (x / inject_Z (Z.of_nat n)).
Proof. destruct n; [congruence|reflexivity]. Qed.

(** With a month to show, the summary is printed: the months in the order
    of the calendar, the totals, and the averages. *)
Lemma print_monthly_summary_ok (monthly_stats : dict Stats) (df_posted : list CleanRow) :
  (forall k, In k (dict_keys monthly_stats) -> month_key k) ->
  NoDup (dict_keys monthly_stats) ->
  monthly_stats <> [] ->
  exists months table,
    print_monthly_summary monthly_stats df_posted = Return table
    /\ Permutation months (dict_keys monthly_stats)
    /\ StronglySorted chrono_lt months
    /\ month_lines table = map (fun m => (m, stats_of monthly_stats m)) months
    /\ total_line table
       = (fold_left (fun acc l => acc + deposits (snd l)) (month_lines table) 0,
          fold_left (fun acc l => acc + spending (snd l)) (month_lines table) 0,
          fold_left (fun acc l => acc + deposits (snd l)) (month_lines table) 0
          - fold_left (fun acc l => acc + spending (snd l)) (month_lines table) 0,
          List.length df_posted)
    /\ average_line table
       = (let n := inject_Z (Z.of_nat (List.length monthly_stats)) in
          let '(td, ts, tn, c) := total_line table in
          (td / n, ts / n, tn / n, inject_Z (Z.of_nat c) / n)).
Proof.
  intros K ND NE. unfold print_monthly_summary.
  destruct (sorted_months_chrono monthly_stats K ND) as (months & -> & P & S).
  cbn [bind].
  rewrite (mapM_ok _ (fun m => (m, stats_of monthly_stats m))).
  2:{ intros m I. unfold dict_item, stats_of.
      destruct (dict_get_present m monthly_stats) as (v & ->); [|reflexivity].
      eapply Permutation_in; [exact P|exact I]. }
  cbn [bind].
  assert (List.length monthly_stats <> 0)%nat as N
    by (destruct monthly_stats; [congruence|discriminate]).
  rewrite !(py_div_pos _ _ N). cbn [bind].
  exists months. eexists. split; [reflexivity|].
  cbn [month_lines total_line average_line]. repeat split; assumption.
Qed.

End ConsoleFacts.

(** ** The totals over all months *)

Module TotalsFacts.
Import FrameFacts NumFacts AggFacts DateFacts ConsoleFacts.
Local Open Scope list_scope.

Lemma qsum_filter {A} (f : A -> Q) (p : A -> bool) l :
  qsum (map f (filter p l)) == qsum (map (fun r => if p r then f r else 0) l).
Proof.
  induction l as [|a l IH]; simpl; [reflexivity|].
  destruct (p a); simpl; rewrite IH; ring.
Qed.

Lemma qsum_ones {A} (l : list A) :
  qsum (map (fun _ => 1) l) == inject_Z (Z.of_nat (List.length l)).
Proof.
  induction l as [|a l IH]; [reflexivity|].
  cbn [map qsum fold_right List.length]. fold (qsum (map (fun _ : A => 1) l)).
  rewrite IH, Nat2Z.inj_succ, <- Z.add_1_l, inject_Z_plus. reflexivity.
Qed.

Lemma qsum_inject {A} (f : A -> nat) l :
  qsum (map (fun a => inject_Z (Z.of_nat (f a))) l)
  == inject_Z (Z.of_nat (list_sum (map f l))).
Proof.
  induction l as [|a l IH]; [reflexivity|].
  cbn [map qsum fold_right list_sum].
  fold (qsum (map (fun a => inject_Z (Z.of_nat (f a))) l)).
  fold (list_sum (map f l)).
  rewrite IH, Nat2Z.inj_add, inject_Z_plus. reflexivity.
Qed.

(** Grouping splits a frame: the sizes of the groups add up to its
    length. *)
Lemma length_groupby {A} (key : A -> string) (df : list A) :
  list_sum (map (fun g => List.length (snd g)) (groupby key df)) = List.length df.
Proof.
  pose proof (qsum_groupby key (fun _ => 1) df) as H.
  rewrite (qsum_map_ext _ (fun g => inject_Z (Z.of_nat (List.length (snd g))))) in H
    by (intros g _; apply qsum_ones).
  rewrite qsum_inject, qsum_ones in H.
  unfold Qeq in H. cbn [Qnum Qden inject_Z] in H. lia.
Qed.

Lemma list_sum_perm l l' : Permutation l l' -> list_sum l = list_sum l'.
Proof. induction 1; simpl; lia. Qed.

Lemma totals_deposits dfp :
  qsum (map (fun it => deposits (snd it)) (calculate_monthly_totals dfp))
  == qsum (map amount (filter (fun r => Qlt_bool 0 (amount r)) dfp)).
Proof.
  rewrite calculate_monthly_totals_items, map_map. cbn [snd deposits month_stats].
  rewrite (qsum_map_ext _
             (fun g => qsum (map (fun r => if Qlt_bool 0 (amount r) then amount r else 0)
                                 (snd g))))
    by (intros g _; apply qsum_filter).
  rewrite qsum_groupby. symmetry. apply qsum_filter.
Qed.

Lemma qsum_below_nonpos (rows : list CleanRow) :
  qsum (map amount (filter (fun r => Qlt_bool (amount r) 0) rows)) <= 0.
Proof.
  apply qsum_nonpos, Forall_forall. intros x I.
  apply in_map_iff in I as (r & <- & I). apply filter_In in I as (_ & L).
  apply Qlt_bool_iff in L. now apply Qlt_le_weak.
Qed.

Lemma totals_spending dfp :
  qsum (map (fun it => spending (snd it)) (calculate_monthly_totals dfp))
  == Qabs (qsum (map amount (filter (fun r => Qlt_bool (amount r) 0) dfp))).
Proof.
  rewrite calculate_monthly_totals_items, map_map. cbn [snd spending month_stats].
  rewrite (qsum_map_ext _
             (fun g => - qsum (map (fun r => if Qlt_bool (amount r) 0 then amount r else 0)
                                   (snd g)))).
  2:{ intros g _. rewrite <- qsum_filter. apply Qabs_neg, qsum_below_nonpos. }
  rewrite qsum_map_opp.
  rewrite (qsum_groupby MonthName
             (fun r => if Qlt_bool (amount r) 0 then amount r else 0) dfp).
  rewrite <- qsum_filter. symmetry. apply Qabs_neg, qsum_below_nonpos.
Qed.

Lemma totals_counts dfp :
  list_sum (map (fun it => transaction_count (snd it)) (calculate_monthly_totals dfp))
  = List.length dfp.
Proof.
  rewrite calculate_monthly_totals_items, map_map. cbn [snd transaction_count month_stats].
  apply length_groupby.
Qed.

Lemma month_lines_perm (monthly_stats : dict Stats) months :
  NoDup (dict_keys monthly_stats) ->
  Permutation months (dict_keys monthly_stats) ->
  Permutation (map (fun m => (m, stats_of monthly_stats m)) months) monthly_stats.
Proof.
  intros ND P.
  rewrite (Permutation_map (fun m => (m, stats_of monthly_stats m)) P).
  rewrite dict_items_of_keys; [reflexivity|assumption|].
  intros k v E. unfold stats_of. now rewrite E.
Qed.

End TotalsFacts.

Section MonthlySummary.
Import FrameFacts NumFacts AggFacts DateFacts ConsoleFacts TotalsFacts.
Local Open Scope list_scope.

(** X4.  With at least one posted row, the monthly summary is printed
    without an exception: one line per month of the monthly totals, with the
    month's own figures, the lines in the order of the calendar. *)
Theorem print_monthly_summary_chronological (df : list Row) :
  Forall (fun r => valid_date (Date r)) df ->
  clean_data df <> [] ->
  exists table,
    print_monthly_summary (calculate_monthly_totals (clean_data df)) (clean_data df)
    = Return table
    /\ Permutation (month_lines table) (calculate_monthly_totals (clean_data df))
    /\ StronglySorted (fun a b => chrono_lt (fst a) (fst b)) (month_lines table).
Proof.
  intros V NE.
  destruct (print_monthly_summary_ok (calculate_monthly_totals (clean_data df))
              (clean_data df))
    as (months & table & E & P & S & L & _).
  - intros k. now apply totals_keys.
  - apply totals_keys_nodup.
  - now apply totals_nonempty.
  - exists table. split; [exact E|]. rewrite L. split.
    + apply month_lines_perm; [apply totals_keys_nodup|exact P].
    + clear -S. induction S as [|m l S IH F]; simpl; constructor; [assumption|].
      apply Forall_forall. intros x I. apply in_map_iff in I as (k & <- & I).
      rewrite Forall_forall in F. now apply F.
Qed.

Lemma print_monthly_summary_chronological_witness :
  exists table,
    print_monthly_summary (calculate_monthly_totals (clean_data march_2024))
                          (clean_data march_2024)
    = Return table.
Proof.
  destruct (print_monthly_summary_chronological march_2024) as (table & E & _).
  - repeat (constructor; [unfold valid_date; cbn [year Date mk_row]; lia|]).
    constructor.
  - discriminate.
  - now exists table.
Defined.

(** X5.  The TOTAL line of the monthly summary holds the sum of all posted
    amounts above zero, the absolute value of the sum of all posted amounts
    below zero, their difference, and the number of posted rows, which is
    the sum of the months' transaction counts; each average, times the number
    of months, gives back its total. *)
Theorem print_monthly_summary_totals (df : list Row) :
  Forall (fun r => valid_date (Date r)) df ->
  clean_data df <> [] ->
  exists table td ts tn c ad asp an atr,
    print_monthly_summary (calculate_monthly_totals (clean_data df)) (clean_data df)
    = Return table
    /\ total_line table = (td, ts, tn, c)
    /\ average_line table = (ad, asp, an, atr)
    /\ td == qsum (map amount (filter (fun r => Qlt_bool 0 (amount r)) (clean_data df)))
    /\ ts == Qabs (qsum (map amount
                           (filter (fun r => Qlt_bool (amount r) 0) (clean_data df))))
    /\ tn == td - ts
    /\ c = List.length (clean_data df)
    /\ c = list_sum (map (fun l => transaction_count (snd l)) (month_lines table))
    /\ (let n := inject_Z (Z.of_nat (List.length (month_lines table))) in
        ad * n == td /\ asp * n == ts /\ an * n == tn
        /\ atr * n == inject_Z (Z.of_nat c)).
Proof.
  intros V NE.
  set (stats := calculate_monthly_totals (clean_data df)).
  destruct (print_monthly_summary_ok stats (clean_data df))
    as (months & table & E & P & S & L & T & A).
  - intros k. now apply totals_keys.
  - apply totals_keys_nodup.
  - now apply totals_nonempty.
  - pose proof (month_lines_perm stats months (totals_keys_nodup _) P) as PL.
    rewrite <- L in PL.
    rewrite T in A. cbv zeta iota beta in A.
    do 9 eexists. split; [exact E|]. split; [exact T|]. split; [exact A|].
    assert (List.length (month_lines table) = List.length stats) as Len
      by now apply Permutation_length.
    assert (~ inject_Z (Z.of_nat (List.length stats)) == 0) as N0.
    { unfold Qeq. cbn [Qnum Qden inject_Z].
      pose proof (totals_nonempty _ NE). fold stats in H.
      destruct stats; [congruence|]. cbn [List.length]. lia. }
    split; [|split; [|split; [|split; [|split]]]].
    + rewrite fold_left_qsum, (qsum_perm _ _ (Permutation_map _ PL)).
      unfold stats. rewrite totals_deposits. ring.
    + rewrite fold_left_qsum, (qsum_perm _ _ (Permutation_map _ PL)).
      unfold stats. rewrite totals_spending. ring.
    + reflexivity.
    + reflexivity.
    + rewrite (list_sum_perm _ _ (Permutation_map _ PL)).
      unfold stats. now rewrite totals_counts.
    + cbv zeta. rewrite Len. repeat split; field; exact N0.
Qed.

Lemma print_monthly_summary_totals_witness :
  exists table,
    print_monthly_summary (calculate_monthly_totals (clean_data march_2024))
                          (clean_data march_2024)
    = Return table
    /\ snd (total_line table) = 3%nat.
Proof.
  destruct (print_monthly_summary_totals march_2024)
    as (table & td & ts & tn & c & ad & asp & an & atr & E & T & _ & _ & _ & _ & C & _).
  - repeat (constructor; [unfold valid_date; cbn [year Date mk_row]; lia|]).
    constructor.
  - discriminate.
  - exists table. split; [exact E|]. rewrite T. cbn [snd]. exact C.
Defined.

End MonthlySummary.

(** ** The merchant tables and their blocks on the console *)

Section MerchantTables.
Import FrameFacts NumFacts AggFacts DateFacts ConsoleFacts TotalsFacts.
Local Open Scope list_scope.

Lemma merchant_table_rows spending_df :
  Permutation (merchant_table spending_df)
              (map (fun g => {| merchant := fst g;
                                total := Qabs (round2 (group_sum g));
                                count := List.length (snd g) |})
                   (groupby CleanMerchant spending_df)).
Proof.
  unfold merchant_table. rewrite sort_by_perm, map_map. reflexivity.
Qed.

(** X6.  In every month of the spending report the merchants are distinct,
    each with at least one transaction and a total that is not negative, and
    their transaction counts add up to the number of the month's posted rows
    with an amount below zero. *)
Theorem spending_report_counts (dfp : list CleanRow) (m : string) (table : list MerchantRow) :
  dict_get m (create_spending_report dfp) = Some table ->
  table <> []
  /\ NoDup (map merchant table)
  /\ Forall (fun r => (1 <= count r)%nat /\ 0 <= total r) table
  /\ list_sum (map count table)
     = List.length (filter (fun r => Qlt_bool (amount r) 0)
                           (filter (fun r => String.eqb (MonthName r) m) dfp)).
Proof.
  rewrite dict_get_report.
  destruct (filter (fun r => Qlt_bool (amount r) 0) _) as [|r rows] eqn:Es; [discriminate|].
  intros [= <-]. set (sp := r :: rows).
  pose proof (merchant_table_rows sp) as P.
  split; [|split; [|split]].
  - intros E. rewrite E in P. apply Permutation_nil in P.
    apply map_eq_nil in P. unfold groupby in P. apply map_eq_nil in P.
    assert (In (CleanMerchant r) (group_keys CleanMerchant sp)) as I
      by (apply group_keys_in; now left).
    rewrite P in I. destruct I.
  - eapply Permutation_NoDup; [symmetry; apply (Permutation_map merchant P)|].
    rewrite map_map. cbn [merchant].
    change (map (fun x => fst x) ?l) with (map fst l).
    rewrite groupby_keys. apply group_keys_nodup.
  - eapply Permutation_Forall; [symmetry; exact P|].
    apply Forall_forall. intros x I. apply in_map_iff in I as ([k g] & <- & I).
    cbn [count total fst snd]. split; [|apply Qabs_nonneg].
    pose proof (groupby_group_nonempty _ _ _ _ I) as NE.
    destruct g; [congruence|cbn; lia].
  - rewrite (list_sum_perm _ _ (Permutation_map count P)), map_map. cbn [count].
    apply length_groupby.
Qed.

Lemma spending_report_counts_witness :
  list_sum (map count
              [{| merchant := "Uber Eats"; total := 4215 # 100; count := 1 |};
               {| merchant := "NETFLIX.COM"; total := 999 # 100; count := 1 |}])
  = 2%nat.
Proof.
  apply (proj2 (proj2 (proj2 (spending_report_counts (clean_data march_2024)
                                "March 2024" _ eq_refl)))).
Defined.





(** X8.  The spending details are printed without an exception, also for
    a report of no month: one block per month of the spending report, built
    from the month's table, the blocks in the order of the calendar. *)
Theorem print_spending_details_chronological (df : list Row) :
  Forall (fun r => valid_date (Date r)) df ->
  exists blocks,
    print_spending_details (create_spending_report (clean_data df)) = Return blocks
    /\ Permutation blocks
         (map (fun it => month_block (fst it) (snd it))
              (create_spending_report (clean_data df)))
    /\ StronglySorted chrono_lt (map block_month blocks).
Proof.
  intros V. set (report := create_spending_report (clean_data df)).
  assert (forall k, In k (dict_keys report) -> month_key k) as K
    by (intros k; apply report_keys; exact V).
  pose proof (report_keys_nodup (clean_data df)) as ND. fold report in ND.
  unfold print_spending_details.
  destruct (sorted_months_chrono report K ND) as (months & -> & P & S).
  cbn [bind].
  set (tbl := fun m => match dict_get m report with Some t => t | None => [] end).
  rewrite (mapM_ok _ (fun m => month_block m (tbl m))).
  2:{ intros m I. unfold dict_item, tbl.
      destruct (dict_get_present m report) as (v & ->); [|reflexivity].
      eapply Permutation_in; [exact P|exact I]. }
  eexists. split; [reflexivity|]. split.
  - rewrite (Permutation_map (fun m => month_block m (tbl m)) P).
    rewrite <- (dict_items_of_keys report tbl ND) at 2.
    + now rewrite map_map.
    + intros k v E. unfold tbl. now rewrite E.
  - rewrite map_map. cbn [block_month month_block]. now rewrite map_id.
Qed.

Lemma print_spending_details_chronological_witness :
  exists blocks,
    print_spending_details (create_spending_report (clean_data march_2024))
    = Return blocks.
Proof.
  destruct (print_spending_details_chronological march_2024) as (blocks & E & _).
  - repeat (constructor; [unfold valid_date; cbn [year Date mk_row]; lia|]).
    constructor.
  - now exists blocks.
Defined.

End MerchantTables.

(** ** The exported details and the keys of the aggregates *)

Module RunFacts.
Import FrameFacts NumFacts AggFacts DateFacts ConsoleFacts TotalsFacts.
Local Open Scope list_scope.

Lemma ltb_negb_leb a b : String.ltb a b = negb (String.leb b a).
Proof.
  unfold String.ltb, String.leb. rewrite (String.compare_antisym b a).
  now destruct (String.compare a b).
Qed.

Lemma details_le_iff a b ya ma yb mb :
  four_digits ya -> four_digits yb ->
  Details.Month a = strftime_Y_m ya ma -> Details.Month b = strftime_Y_m yb mb ->
  details_le a b = true <->
  ((ya < yb \/ ya = yb /\ month_number ma < month_number mb)%nat
   \/ ((ya = yb /\ month_number ma = month_number mb)
       /\ Details.Amount b <= Details.Amount a)).
Proof.
  intros Ha Hb Ea Eb. unfold details_le.
  rewrite orb_true_iff, andb_true_iff, Qle_bool_iff, String.eqb_eq.
  rewrite ltb_negb_leb, negb_true_iff, Ea, Eb, leb_strftime_Y_m by assumption.
  assert (ym_leb (yb, mb) (ya, ma) = false
          <-> (ya < yb \/ ya = yb /\ month_number ma < month_number mb)%nat) as ->.
  { destruct (ym_leb (yb, mb) (ya, ma)) eqn:L.
    - apply ym_leb_iff in L. cbn [fst snd] in L. split; [discriminate|lia].
    - split; [intros _|reflexivity].
      assert (~ (yb < ya \/ yb = ya /\ month_number mb <= month_number ma)%nat) as N.
      { intros C. apply (proj2 (ym_leb_iff (yb, mb) (ya, ma))) in C. congruence. }
      lia. }
  assert (strftime_Y_m ya ma = strftime_Y_m yb mb
          <-> ya = yb /\ month_number ma = month_number mb) as ->.
  { split.
    - intros E. apply strftime_Y_m_inj in E; [|assumption..]. now injection E as -> ->.
    - intros [-> E]. apply month_number_inj in E. now subst. }
  reflexivity.
Qed.

Lemma StronglySorted_impl_on {A} (P : A -> Prop) (R R' : A -> A -> Prop) l :
  (forall a b, P a -> P b -> R a b -> R' a b) ->
  Forall P l -> StronglySorted R l -> StronglySorted R' l.
Proof.
  intros H FP S. induction S as [|a l S IH F]; [constructor|].
  inversion FP as [|? ? Pa Pl]; subst. constructor; [now apply IH|].
  rewrite Forall_forall in *. intros b I. apply H; auto.
Qed.

Lemma detail_rows_cells (report : dict (list MerchantRow)) :
  (forall k, In k (dict_keys report) -> month_key k) ->
  Forall (fun r => exists y m, four_digits y /\ Details.Month r = strftime_Y_m y m)
         (List.concat (map detail_rows report)).
Proof.
  intros K. apply Forall_forall. intros r I.
  apply in_concat in I as (l & Il & Ir). apply in_map_iff in Il as (it & <- & Iit).
  unfold detail_rows in Ir. apply in_map_iff in Ir as (x & <- & _).
  cbn [detail_row Details.Month]. unfold cell_of_key.
  destruct (K (fst it)) as (y & m & H & E); [now apply in_map|].
  exists y, m. split; [assumption|]. now rewrite E, ym_of_key_strftime.
Qed.

Lemma sort_by_details_sorted rows :
  Forall (fun r => exists y m, four_digits y /\ Details.Month r = strftime_Y_m y m) rows ->
  StronglySorted details_before (sort_by details_le rows).
Proof.
  intros FP.
  set (P := fun r : Details.Row =>
              exists y m, four_digits y /\ Details.Month r = strftime_Y_m y m) in *.
  destruct (sort_by_strongly_sorted P details_le rows) as [S FS]; [| |exact FP|].
  - intros a b (ya & ma & Ha & Ea) (yb & mb & Hb & Eb).
    rewrite (details_le_iff a b ya ma yb mb), (details_le_iff b a yb mb ya ma)
      by assumption.
    destruct (Qlt_le_dec (Details.Amount a) (Details.Amount b)) as [L|L];
      [apply Qlt_le_weak in L|];
      destruct (Nat.lt_trichotomy ya yb) as [?|[?|?]];
      destruct (Nat.lt_trichotomy (month_number ma) (month_number mb)) as [?|[?|?]];
      try (left; left; lia); try (right; left; lia);
      try (left; right; split; [lia|assumption]);
      try (right; right; split; [lia|assumption]).
  - intros a b c (ya & ma & Ha & Ea) (yb & mb & Hb & Eb) (yc & mc & Hc & Ec).
    rewrite (details_le_iff a b ya ma yb mb), (details_le_iff b c yb mb yc mc),
      (details_le_iff a c ya ma yc mc) by assumption.
    intros [L1|[E1 Q1]] [L2|[E2 Q2]].
    + left. lia.
    + left. lia.
    + left. lia.
    + right. split; [lia|]. eapply Qle_trans; eassumption.
  - apply (StronglySorted_impl_on P (fun a b => details_le a b = true));
      [|exact FS|exact S].
    intros a b (ya & ma & Ha & Ea) (yb & mb & Hb & Eb) L.
    apply (details_le_iff a b ya ma yb mb) in L; try assumption.
    unfold details_before. destruct L as [L|[[Ey Em] Q]].
    + left. exists ya, ma, yb, mb. repeat (split; [assumption|]). exact L.
    + right. split; [|assumption]. apply month_number_inj in Em. now rewrite Ea, Eb, Ey, Em.
Qed.

(** The second half of the export either returns its rows or stops at the
    missing [Month] column. *)
Lemma export_spending_details_cases (report : dict (list MerchantRow)) :
  (forall k, In k (dict_keys report) -> month_key k) ->
  match List.concat (map detail_rows report) with
  | [] => export_spending_details report = Raise (KeyError "Month")
  | rows => export_spending_details report = Return (sort_by details_le rows)
  end.
Proof.
  intros K. unfold export_spending_details.
  rewrite (mapM_ok _ detail_rows).
  - cbn [bind]. unfold sort_values.
    now destruct (List.concat (map detail_rows report)).
  - intros item I. rewrite month_key_parses by (apply K; now apply in_map).
    reflexivity.
Qed.

Lemma report_table_nonempty dfp m table :
  In (m, table) (create_spending_report dfp) -> table <> [].
Proof.
  intros I E. subst table.
  apply dict_get_nodup in I; [|apply report_keys_nodup].
  rewrite dict_get_report in I.
  destruct (filter (fun r => Qlt_bool (amount r) 0) _) as [|r rows] eqn:Es; [discriminate|].
  injection I as I.
  pose proof (merchant_table_length (r :: rows)) as L. rewrite I in L.
  unfold groupby in L. rewrite length_map in L. cbn [List.length] in L.
  assert (In (CleanMerchant r) (group_keys CleanMerchant (r :: rows))) as Ik
    by (apply group_keys_in; now left).
  destruct (group_keys CleanMerchant (r :: rows)); [destruct Ik|discriminate].
Qed.

Lemma report_empty_iff dfp :
  create_spending_report dfp = []
  <-> Forall (fun r => 0 <= amount r) dfp.
Proof.
  split.
  - intros E. apply Forall_forall. intros r I.
    pose proof (dict_get_report dfp (MonthName r)) as G. rewrite E in G.
    cbn [dict_get] in G.
    destruct (Qlt_le_dec (amount r) 0) as [L|L]; [exfalso|assumption].
    assert (In r (filter (fun r0 => Qlt_bool (amount r0) 0)
                    (filter (fun r0 => String.eqb (MonthName r0) (MonthName r)) dfp))) as Ir.
    { apply filter_In. split; [|now apply Qlt_bool_iff].
      apply filter_In. split; [assumption|apply String.eqb_refl]. }
    destruct (filter (fun r0 => Qlt_bool (amount r0) 0) _); [destruct Ir|discriminate].
  - intros F. destruct (create_spending_report dfp) as [|[k t] rest] eqn:E; [reflexivity|].
    exfalso.
    assert (dict_get k (create_spending_report dfp) = Some t) as G
      by (rewrite E; cbn [dict_get]; now rewrite String.eqb_refl).
    rewrite dict_get_report in G.
    destruct (filter (fun r => Qlt_bool (amount r) 0) _) as [|r rows] eqn:Es; [discriminate|].
    assert (In r (r :: rows)) as Ir by now left.
    rewrite <- Es in Ir. apply filter_In in Ir as (Ir & L).
    apply filter_In in Ir as (Ir & _). apply Qlt_bool_iff in L.
    rewrite Forall_forall in F. exact (Qlt_not_le _ _ L (F r Ir)).
Qed.

Lemma detail_rows_nonempty dfp :
  create_spending_report dfp <> [] ->
  List.concat (map detail_rows (create_spending_report dfp)) <> [].
Proof.
  intros NE. destruct (create_spending_report dfp) as [|[k t] rest] eqn:E; [congruence|].
  assert (t <> []) as Nt by (apply (report_table_nonempty dfp k); rewrite E; now left).
  cbn [map List.concat]. unfold detail_rows at 1. cbn [fst snd].
  destruct t; [congruence|discriminate].
Qed.

End RunFacts.

Section ExportedDetails.
Import FrameFacts NumFacts AggFacts DateFacts ConsoleFacts TotalsFacts RunFacts.
Local Open Scope list_scope.

(** X9.  When some posted row has an amount below zero, the second half of
    the export returns one row per month and merchant of the spending
    report, earlier months first and, within a month, larger amounts
    first. *)
Theorem export_spending_details_sorted (df : list Row) :
  Forall (fun r => valid_date (Date r)) df ->
  create_spending_report (clean_data df) <> [] ->
  exists rows,
    export_spending_details (create_spending_report (clean_data df)) = Return rows
    /\ Permutation rows
         (List.concat (map detail_rows (create_spending_report (clean_data df))))
    /\ List.length rows
       = list_sum (map (fun it => List.length (snd it))
                       (create_spending_report (clean_data df)))
    /\ StronglySorted details_before rows.
Proof.
  intros V NE. set (report := create_spending_report (clean_data df)) in *.
  assert (forall k, In k (dict_keys report) -> month_key k) as K
    by (intros k; apply report_keys; exact V).
  pose proof (export_spending_details_cases report K) as C.
  pose proof (detail_rows_nonempty (clean_data df) NE) as N. fold report in N.
  pose proof (detail_rows_cells report K) as FP.
  destruct (List.concat (map detail_rows report)) as [|r rows] eqn:E; [congruence|].
  eexists. split; [exact C|]. split; [apply sort_by_perm|]. split.
  - rewrite (Permutation_length (sort_by_perm _ _)), <- E.
    rewrite length_concat, map_map. f_equal. apply map_ext. intros it.
    unfold detail_rows. apply length_map.
  - now apply sort_by_details_sorted.
Qed.

Lemma export_spending_details_sorted_witness :
  exists rows,
    export_spending_details (create_spending_report (clean_data march_2024)) = Return rows
    /\ List.length rows = 2%nat.
Proof.
  destruct (export_spending_details_sorted march_2024) as (rows & E & _ & L & _).
  - repeat (constructor; [unfold valid_date; cbn [year Date mk_row]; lia|]).
    constructor.
  - discriminate.
  - exists rows. split; [exact E|exact L].
Defined.

(** X11.  The spending report has no month exactly when no row of the
    cleaned frame has an amount below zero.  From such a frame the console
    part prints no month, and the second half of the export, which builds
    its rows from the empty report, stops at [KeyError] for the [Month]
    column, before the details are written. *)
Theorem spending_report_empty_iff (dfp : list CleanRow) :
  (create_spending_report dfp = [] <-> Forall (fun r => 0 <= amount r) dfp)
  /\ (Forall (fun r => 0 <= amount r) dfp ->
      print_spending_details (create_spending_report dfp) = Return []
      /\ export_spending_details (create_spending_report dfp)
         = Raise (KeyError "Month")).
Proof.
  split; [apply report_empty_iff|].
  intros F. apply report_empty_iff in F. rewrite F. split; reflexivity.
Qed.

Lemma spending_report_empty_iff_witness :
  export_spending_details
    (create_spending_report
       (clean_data [mk_row 2024 April 5 "PAYCHECK" 1500 "Posted"]))
  = Raise (KeyError "Month").
Proof.
  apply (proj2 (spending_report_empty_iff
                  (clean_data [mk_row 2024 April 5 "PAYCHECK" 1500 "Posted"]))
               ltac:(repeat constructor; vm_compute; discriminate)).
Defined.

(** X13.  The monthly totals hold one entry per month name of the posted
    rows, in ascending order of the names as strings; the spending report
    holds a part of these months, each once. *)
Theorem monthly_totals_keys (dfp : list CleanRow) :
  NoDup (dict_keys (calculate_monthly_totals dfp))
  /\ Sorted (fun a b => String.leb a b = true) (dict_keys (calculate_monthly_totals dfp))
  /\ (forall k, In k (dict_keys (calculate_monthly_totals dfp))
                <-> In k (map MonthName dfp))
  /\ NoDup (dict_keys (create_spending_report dfp))
  /\ (forall k, In k (dict_keys (create_spending_report dfp)) ->
                In k (dict_keys (calculate_monthly_totals dfp))).
Proof.
  assert (dict_keys (calculate_monthly_totals dfp) = group_keys MonthName dfp) as E.
  { rewrite calculate_monthly_totals_items. unfold dict_keys. rewrite map_map.
    cbn [fst]. change (map (fun x => fst x) ?l) with (map fst l). apply groupby_keys. }
  rewrite E. split; [apply group_keys_nodup|]. split; [apply group_keys_sorted|].
  split; [intros k; apply group_keys_in|]. split; [apply report_keys_nodup|].
  intros k I. rewrite create_spending_report_items in I. apply kept_keys in I.
  now rewrite groupby_keys in I.
Qed.

End ExportedDetails.

(** ** The range of the percentages *)

Section PercentageRange.
Import FrameFacts NumFacts AggFacts DateFacts ConsoleFacts TotalsFacts RunFacts.
Local Open Scope list_scope.

Lemma round1_range x : 0 <= x -> x <= 100 -> 0 <= round1 x /\ round1 x <= 100.
Proof.
  destruct x as [n d]. unfold round1, round_nd.
  change (10 ^ Z.of_nat 1)%Z with 10%Z. change (Z.to_pos 10) with 10%positive.
  unfold Qmult, Qle. cbn [Qnum Qden inject_Z]. intros L U.
  pose proof (round_half_even_error (n * 10) (d * 1)) as E.
  set (k := round_half_even (n * 10 # d * 1)) in *.
  rewrite Pos.mul_1_r in E.
  assert (0 <= k)%Z by nia. assert (k <= 1000)%Z by nia. lia.
Qed.

Lemma qsum_member_le l x : Forall (fun y => 0 <= y) l -> In x l -> x <= qsum l.
Proof.
  induction 1 as [|y l Hy Hl IH]; intros I; [destruct I|]. simpl.
  pose proof (qsum_nonneg l Hl) as N.
  destruct I as [->|I].
  - setoid_replace x with (x + 0) at 1 by ring. now apply Qplus_le_compat; [apply Qle_refl|].
  - setoid_replace x with (0 + x) at 1 by ring. apply Qplus_le_compat; [assumption|auto].
Qed.

Lemma percentage_in_range x t :
  0 < t -> 0 <= x -> x <= t ->
  exists q, option_map round1 (percentage x t) = Some q /\ 0 <= q /\ q <= 100.
Proof.
  intros T L U. rewrite (percentage_defined x t T). cbn [option_map].
  eexists. split; [reflexivity|]. apply round1_range.
  - apply Qmult_le_0_compat; [|easy]. unfold Qdiv.
    apply Qmult_le_0_compat; [assumption|]. apply Qinv_le_0_compat. now apply Qlt_le_weak.
  - setoid_replace 100 with (1 * 100) at 2 by reflexivity.
    apply Qmult_le_compat_r; [|easy].
    apply Qle_shift_div_r; [assumption|]. now rewrite Qmult_1_l.
Qed.

Lemma report_totals_nonneg dfp m table :
  dict_get m (create_spending_report dfp) = Some table ->
  Forall (fun y => 0 <= y) (map total table).
Proof.
  rewrite dict_get_report.
  destruct (filter (fun r => Qlt_bool (amount r) 0) _) as [|r rows]; [discriminate|].
  intros [= <-]. eapply Permutation_Forall; [symmetry; apply merchant_table_totals|].
  apply Forall_forall. intros y I. apply in_map_iff in I as (g & <- & _).
  apply Qabs_nonneg.
Qed.

Lemma Forall_firstn {A} (P : A -> Prop) n l : Forall P l -> Forall P (firstn n l).
Proof.
  intros F. apply Forall_forall. intros x I. rewrite Forall_forall in F.
  apply F. rewrite <- (firstn_skipn n l). apply in_or_app. now left.
Qed.

Lemma Forall_skipn {A} (P : A -> Prop) n l : Forall P l -> Forall P (skipn n l).
Proof.
  intros F. apply Forall_forall. intros x I. rewrite Forall_forall in F.
  apply F. rewrite <- (firstn_skipn n l). apply in_or_app. now right.
Qed.

(** X14.  In a month of the spending report whose month total is above
    zero, every percentage on the console (the one of the line for the other
    merchants included) and every percentage of the month in the exported
    details is a number from 0.0 to 100.0. *)
Theorem percentages_in_range (dfp : list CleanRow) (m : string) (table : list MerchantRow) :
  dict_get m (create_spending_report dfp) = Some table ->
  0 < month_total_of table ->
  Forall (fun p => exists q, p = Some q /\ 0 <= q /\ q <= 100)
         (block_percentages (month_block m table))
  /\ Forall (fun p => exists q, p = Some q /\ 0 <= q /\ q <= 100)
            (map Details.Percentage_of_Month (detail_rows (m, table))).
Proof.
  intros G T. pose proof (report_totals_nonneg dfp m table G) as N.
  split.
  - rewrite block_percentages_amounts. apply Forall_forall. intros p I.
    apply in_map_iff in I as (x & <- & I).
    assert (0 <= x /\ x <= month_total_of table) as [L U].
    { unfold block_amounts in I. apply in_app_or in I as [I|I].
      - rewrite <- (firstn_skipn 10 (map total table)) in N.
        apply Forall_app in N as [N1 N2]. rewrite firstn_map in N1.
        split; [rewrite Forall_forall in N1; now apply N1|].
        eapply Qle_trans; [apply (qsum_member_le _ x N1 I)|].
        rewrite <- (block_amounts_sum table). unfold block_amounts. rewrite qsum_app.
        setoid_replace (qsum (map total (firstn 10 table)))
          with (qsum (map total (firstn 10 table)) + 0) at 1 by ring.
        apply Qplus_le_compat; [apply Qle_refl|].
        destruct (10 <? List.length table)%nat; [|apply Qle_refl].
        cbn [qsum fold_right].
        setoid_replace 0 with (0 + 0) at 1 by ring.
        apply Qplus_le_compat; [|apply Qle_refl].
        apply qsum_nonneg. rewrite <- skipn_map. exact N2.
      - destruct (10 <? List.length table)%nat; [|destruct I].
        destruct I as [<-|[]].
        assert (0 <= qsum (map total (skipn 10 table))) as S
          by (apply qsum_nonneg; rewrite <- skipn_map; now apply Forall_skipn).
        split; [exact S|].
        assert (month_total_of table
                == qsum (map total (firstn 10 table))
                   + qsum (map total (skipn 10 table))) as ->.
        { unfold month_total_of. now rewrite <- qsum_app, <- map_app, firstn_skipn. }
        setoid_replace (qsum (map total (skipn 10 table)))
          with (0 + qsum (map total (skipn 10 table))) at 1 by ring.
        apply Qplus_le_compat; [|apply Qle_refl].
        apply qsum_nonneg. rewrite <- firstn_map. now apply Forall_firstn. }
    destruct (percentage_in_range x (month_total_of table) T L U) as (q & E & R).
    now exists q.
  - unfold detail_rows. cbn [fst snd]. rewrite map_map.
    cbn [detail_row Details.Percentage_of_Month].
    apply Forall_forall. intros p I. apply in_map_iff in I as (r & <- & I).
    assert (In (total r) (map total table)) as It by now apply in_map.
    destruct (percentage_in_range (total r) (month_total_of table) T) as (q & E & R).
    + rewrite Forall_forall in N. now apply N.
    + now apply qsum_member_le.
    + now exists q.
Qed.

Lemma percentages_in_range_witness :
  Forall (fun p => exists q, p = Some q /\ 0 <= q /\ q <= 100)
         (block_percentages
            (month_block "March 2024"
               [{| merchant := "Uber Eats"; total := 4215 # 100; count := 1 |};
                {| merchant := "NETFLIX.COM"; total := 999 # 100; count := 1 |}])).
Proof.
  apply (proj1 (percentages_in_range (clean_data march_2024) "March 2024" _
                  eq_refl eq_refl)).
Defined.

End PercentageRange.

(** ** The exported summary against the console table *)

Section SummaryOrder.
Import FrameFacts NumFacts AggFacts DateFacts ConsoleFacts TotalsFacts RunFacts.
Local Open Scope list_scope.

(** Two lists in strict order that hold the same elements are the same
    list. *)
Lemma strictly_sorted_unique {A} (R : A -> A -> Prop) l1 l2 :
  (forall a b, R a b -> R b a -> False) ->
  StronglySorted R l1 -> StronglySorted R l2 -> Permutation l1 l2 -> l1 = l2.
Proof.
  intros Asym S1. revert l2. induction S1 as [|a l1 S1 IH F1]; intros l2 S2 P.
  - apply Permutation_nil in P. now subst.
  - destruct S2 as [|b l2 S2 F2].
    + symmetry in P. now apply Permutation_nil in P.
    + assert (a = b) as <-.
      { assert (In a (b :: l2)) as Ia by (eapply Permutation_in; [exact P|now left]).
        assert (In b (a :: l1)) as Ib
          by (eapply Permutation_in; [symmetry; exact P|now left]).
        destruct Ia as [E|Ia]; [now symmetry|]. destruct Ib as [E|Ib]; [assumption|].
        rewrite Forall_forall in F1, F2. exfalso.
        exact (Asym a b (F1 b Ib) (F2 a Ia)). }
      f_equal. apply IH; [assumption|]. now apply Permutation_cons_inv in P.
Qed.

Lemma month_cell_lt_asym a b : month_cell_lt a b -> month_cell_lt b a -> False.
Proof.
  intros (ya & ma & yb & mb & Ha & Hb & Ea & Eb & L)
         (yb' & mb' & ya' & ma' & Hb' & Ha' & Eb' & Ea' & L').
  rewrite Ea in Ea'. rewrite Eb in Eb'.
  apply strftime_Y_m_inj in Ea'; [|assumption..].
  apply strftime_Y_m_inj in Eb'; [|assumption..].
  injection Ea' as <- <-. injection Eb' as <- <-. lia.
Qed.

Lemma chrono_lt_cells k1 k2 :
  month_key k1 -> month_key k2 -> chrono_lt k1 k2 ->
  month_cell_lt (cell_of_key k1) (cell_of_key k2).
Proof.
  intros (y1 & m1 & H1 & ->) (y2 & m2 & H2 & ->). unfold chrono_lt, cell_of_key, ym_lt.
  rewrite !ym_of_key_strftime by assumption. cbn [fst snd]. intros L.
  exists y1, m1, y2, m2. repeat (split; [assumption || reflexivity|]). exact L.
Qed.

(** X15.  With at least one posted row, the rows of the exported monthly
    summary are the lines of the console table, in the same order and with
    the same deposits, spending, net and transaction count. *)
Theorem export_summary_matches_console (df : list Row) :
  Forall (fun r => valid_date (Date r)) df ->
  clean_data df <> [] ->
  exists table rows,
    print_monthly_summary (calculate_monthly_totals (clean_data df)) (clean_data df)
    = Return table
    /\ export_monthly_summary (calculate_monthly_totals (clean_data df)) = Return rows
    /\ rows = map summary_row (month_lines table).
Proof.
  intros V NE. set (stats := calculate_monthly_totals (clean_data df)).
  assert (forall k, In k (dict_keys stats) -> month_key k) as K
    by (intros k; apply totals_keys; exact V).
  pose proof (totals_keys_nodup (clean_data df)) as ND. fold stats in ND.
  destruct (print_monthly_summary_ok stats (clean_data df) K ND
              (totals_nonempty _ NE))
    as (months & table & E & P & S & L & _).
  exists table. eexists. split; [exact E|]. split.
  { apply export_monthly_summary_rows; [now apply totals_nonempty|exact K]. }
  pose proof (month_lines_perm stats months ND P) as PL. rewrite <- L in PL.
  apply (strictly_sorted_unique
           (fun a b => month_cell_lt (Summary.Month a) (Summary.Month b))).
  - intros a b. apply month_cell_lt_asym.
  - now apply export_rows_sorted.
  - rewrite L, map_map. cbn [summary_row Summary.Month fst].
    assert (Forall month_key months) as FK.
    { apply Forall_forall. intros k I. apply K.
      eapply Permutation_in; [exact P|exact I]. }
    clear -S FK. induction S as [|k l S IH F]; simpl; constructor.
    + apply IH. now inversion FK.
    + inversion FK as [|? ? Kk Kl]; subst.
      apply Forall_forall. intros r I. apply in_map_iff in I as (k' & <- & I).
      cbn [Summary.Month]. rewrite Forall_forall in F, Kl.
      apply (chrono_lt_cells k k'); auto.
  - rewrite sort_by_perm. apply Permutation_map. now symmetry.
Qed.

Lemma export_summary_matches_console_witness :
  exists table rows,
    print_monthly_summary (calculate_monthly_totals (clean_data march_2024))
                          (clean_data march_2024)
    = Return table
    /\ export_monthly_summary (calculate_monthly_totals (clean_data march_2024))
       = Return rows
    /\ rows = map summary_row (month_lines table).
Proof.
  apply (export_summary_matches_console march_2024).
  - repeat (constructor; [unfold valid_date; cbn [year Date mk_row]; lia|]).
    constructor.
  - discriminate.
Defined.

End SummaryOrder.
